(** * Spore Mod Loader installer (spore-mod-loader/installer.py)

    A shallow embedding of [SporeModLoaderInstaller] and the properties of
    its path translation, registry document, sandbox probing, launch-script
    generation and install pipeline.

    Python [str] values are [string]s (bytes), [pathlib.Path] values are
    [Path] records, dictionaries are [gmap]s, and the methods that touch
    the outside world are computations in the monad [M] over a [World]. *)

From Stdlib Require Import Ascii String List Bool Arith Lia.
From stdpp Require Import base option gmap strings list fin_maps pretty.

Local Open Scope string_scope.

(* stdpp freezes [String.append] for [simpl]; the templates below are
   concatenations of literals and are meant to be computed. *)
#[local] Arguments String.append : simpl nomatch.

(** ** Characters and strings *)

Module Str.

Definition nl : ascii := "010"%char.
Definition dq : ascii := "034"%char.
Definition bs : ascii := "\"%char.
Definition slash : ascii := "/"%char.

Definition chr (c : ascii) : string := String c "".

(** [str.replace(old, new)]: left to right, non-overlapping.  [skip]
    counts the characters of a match of [old] still to be dropped. *)
Fixpoint replace_go (old new : string) (skip : nat) (s : string) : string :=
  match s with
  | "" => ""
  | String c r =>
      match skip with
      | S k => replace_go old new k r
      | O =>
          if String.prefix old s
          then new +:+ replace_go old new (String.length old - 1) r
          else String c (replace_go old new 0 r)
      end
  end.

(** Python inserts [new] around every character when [old] is empty; the
    installer only ever replaces non-empty patterns, and the empty pattern
    is given the same meaning here. *)
Definition replace (old new s : string) : string :=
  match old with
  | "" => new +:+ String.concat new (List.map chr (list_ascii_of_string s))
          +:+ (match s with "" => "" | _ => new end)
  | _ => replace_go old new 0 s
  end.

(** [sub in s] *)
Fixpoint contains (sub s : string) : bool :=
  String.prefix sub s ||
  match s with
  | "" => false
  | String _ r => contains sub r
  end.

(** Number of positions of [s] at which [tok] occurs. *)
Fixpoint occurrences (tok s : string) : nat :=
  match s with
  | "" => 0
  | String _ r => (if String.prefix tok s then 1 else 0) + occurrences tok r
  end.

Fixpoint has_char (c : ascii) (s : string) : bool :=
  match s with
  | "" => false
  | String d r => (if Ascii.eqb c d then true else false) || has_char c r
  end.

(** [s.split(sep)] for a one-character separator. *)
Fixpoint split_on (sep : ascii) (s : string) : list string :=
  match s with
  | "" => [""]
  | String c r =>
      if Ascii.eqb c sep then "" :: split_on sep r
      else match split_on sep r with
           | l :: ls => String c l :: ls
           | [] => [chr c]
           end
  end.

(** [s.split("\n")] *)
Definition split_lines (s : string) : list string := split_on nl s.

(** ASCII [str.lower()].  On UTF-8 bytes this agrees with Python's Unicode
    lowering wherever an ASCII letter is concerned: no non-ASCII code point
    lowers to one of the letters s, p, o, r, e. *)
Definition lower_ascii (c : ascii) : ascii :=
  let n := nat_of_ascii c in
  if ((65 <=? n) && (n <=? 90))%nat then ascii_of_nat (n + 32) else c.

Fixpoint lower (s : string) : string :=
  match s with
  | "" => ""
  | String c r => String (lower_ascii c) (lower r)
  end.

(** Lengths of the maximal runs of the character [c] in [s]. *)
Fixpoint runs_go (c : ascii) (cur : nat) (s : string) : list nat :=
  match s with
  | "" => match cur with O => [] | _ => [cur] end
  | String d r =>
      if Ascii.eqb c d then runs_go c (S cur) r
      else match cur with
           | O => runs_go c 0 r
           | _ => cur :: runs_go c 0 r
           end
  end.

Definition runs (c : ascii) (s : string) : list nat := runs_go c 0 s.

End Str.

(** ** Path Translator *)

Definition convert_to_wine_path_display (linux_path : string) : string :=
  "Z:\" +:+ Str.replace "/" "\" linux_path.

Definition convert_to_wine_path_registry (linux_path : string) : string :=
  "Z:\\" +:+ Str.replace "/" "\\" linux_path.

(** ** Registry Document Synthesizer *)

(** A double-quoted field of the template. *)
Definition q (s : string) : string := String Str.dq (s +:+ Str.chr Str.dq).

Definition CDKEY : string := "%CDKEY%".

(** The value of the local [reg_content] of [create_spore_registry]: the
    f-string, one list entry per line (the closing entry is the line break
    that ends the literal). *)
Definition reg_content (spore_path : string) : string :=
  let wine_spore_path := convert_to_wine_path_registry spore_path in
  let wine_data_path := wine_spore_path +:+ "\\Data" in
  let wine_dataep1_path := wine_spore_path +:+ "\\DataEP1" in
  let wine_bp1_path := wine_spore_path +:+ "\\bp1content" in
  String.concat (Str.chr Str.nl) [
    "Windows Registry Editor Version 5.00";
    "";
    "[HKEY_LOCAL_MACHINE\Software\Wow6432Node\electronic arts\spore]";
    q "appdir" +:+ "=" +:+ q "Spore";
    q "datadir" +:+ "=" +:+ q wine_data_path;
    q "locale" +:+ "=" +:+ q "en-us";
    q "playerdir" +:+ "=" +:+ q "My Spore Creations";
    "";
    "[HKEY_LOCAL_MACHINE\Software\Wow6432Node\electronic arts\ea games\spore(tm)\ergc]";
    "@=" +:+ q "%CDKEY%";
    "";
    "[HKEY_LOCAL_MACHINE\Software\Wow6432Node\electronic arts\SPORE Creepy and Cute Parts Pack]";
    q "AddOnID" +:+ "=dword:00000001";
    q "datadir" +:+ "=" +:+ q (wine_bp1_path +:+ "\\");
    q "PackID" +:+ "=dword:06f4b5d1";
    "";
    "[HKEY_LOCAL_MACHINE\Software\Wow6432Node\electronic arts\SPORE_EP1]";
    q "AddOnID" +:+ "=dword:00000002";
    q "datadir" +:+ "=" +:+ q (wine_dataep1_path +:+ "\\");
    q "PackID" +:+ "=dword:07a7f786";
    q "ProductKey" +:+ "=" +:+ q "%CDKEY%";
    ""
  ].

(** A key-block header is a line that opens with a bracket. *)
Definition is_key_block_header (line : string) : bool := String.prefix "[" line.

Definition key_block_headers (doc : string) : list string :=
  List.filter is_key_block_header (Str.split_lines doc).


(** ** pathlib

    A [PurePosixPath]: the anchor ([""] for a relative path, ["/"] or
    ["//"] for an absolute one) and the components after it. *)

Record Path := mkPath { anchor : string; parts : list string }.

Definition is_component (s : string) : bool :=
  negb (String.eqb s "") && negb (String.eqb s ".").

(** [Path(s)]: empty and [.] components vanish; exactly two leading
    slashes are kept as an anchor of their own. *)
Definition Path_of (s : string) : Path :=
  {| anchor := if String.prefix "///" s then "/"
               else if String.prefix "//" s then "//"
               else if String.prefix "/" s then "/" else "";
     parts := List.filter is_component (Str.split_on Str.slash s) |}.

(** [str(p)] *)
Definition path_str (p : Path) : string :=
  match parts p with
  | [] => if String.eqb (anchor p) "" then "." else anchor p
  | _ => anchor p +:+ String.concat "/" (parts p)
  end.

(** [p / name]: an absolute right operand replaces the left one. *)
Definition truediv (p : Path) (name : string) : Path :=
  let r := Path_of name in
  if String.eqb (anchor r) "" then {| anchor := anchor p; parts := parts p ++ parts r |}
  else r.

Infix "//" := truediv (at level 40, left associativity).

(** [p.parent] *)
Definition parent (p : Path) : Path :=
  {| anchor := anchor p; parts := removelast (parts p) |}.

(** ** The world the installer runs in *)

Inductive ExnClass := TimeoutExpired | FileNotFoundError | AttributeError | OtherError.

(** A raised exception: its class and [str(e)]. *)
Record Exn := mkExn { exn_class : ExnClass; exn_str : string }.

Inductive outcome (A : Type) : Type :=
| Ret (a : A)
| Raise (e : Exn).
Arguments Ret {A} a.
Arguments Raise {A} e.

(** A file-system entry.  The file system is a finite map from [str(path)]
    to entries; an operation fails only as pathlib documents in terms of
    the presence of its own path.  Permissions, missing parents and kind
    mismatches are outside the model. *)
Inductive Node :=
| Dir
| File (content : string) (mode : nat).

Definition default_mode : nat := 420.  (* 0o644 *)
Definition tempfile_mode : nat := 384. (* 0o600 *)
Definition mode_755 : nat := 493.      (* 0o755 *)

Record Game := mkGame { name : string; path : string; platform : string }.

Record Asset := mkAsset { asset_name : string; browser_download_url : string }.
Record Release := mkRelease { tag_name : string; assets : list Asset }.

Record CompletedProcess := mkProc { returncode : nat; stdout : string; stderr : string }.

(** Keyword arguments of [_install_dependencies_unified]. *)
Record DepArgs := mkDepArgs {
  dep_game : string * string;
  dependencies : list string;
  wine_binary : string;
  wineserver_binary : string;
  wine_prefix : string;
  steam_compat_data_path : string;
  steam_compat_client_path : string;
  method_name : string
}.

(** The dictionary it returns, read through [.get]. *)
Record DepResult := mkDepResult { success : bool; error : string }.

(** A call made to a collaborator or to the file system, with its
    arguments. *)
Inductive Call :=
| FsExists (p : string)
| FsMkdir (p : string)
| FsTouch (p : string)
| FsWriteText (p data : string)
| FsChmod (p : string) (mode : nat)
| FsUnlink (p : string)
| CallFindAllGames
| CallGetPrefixesDir
| CallGetActiveProtonPath
| CallSteamUtils
| CallGetSteamRoot
| CallInstallDependencies (args : DepArgs)
| CallNamedTemporaryFile (suffix : string)
| CallRun (argv : list string) (env : gmap string string) (timeout : nat)
| CallPopen (argv : list string) (env : gmap string string)
| CallGetLatestRelease
| CallDownloadFile (url filename : string) (cache_enabled : bool).

Inductive CallKind :=
| KFs
| KFindAllGames | KGetPrefixesDir | KGetActiveProtonPath | KSteamUtils
| KGetSteamRoot | KInstallDependencies | KNamedTemporaryFile | KRun | KPopen
| KGetLatestRelease | KDownloadFile.

Definition kind_of (c : Call) : CallKind :=
  match c with
  | FsExists _ | FsMkdir _ | FsTouch _ | FsWriteText _ _ | FsChmod _ _ | FsUnlink _ => KFs
  | CallFindAllGames => KFindAllGames
  | CallGetPrefixesDir => KGetPrefixesDir
  | CallGetActiveProtonPath => KGetActiveProtonPath
  | CallSteamUtils => KSteamUtils
  | CallGetSteamRoot => KGetSteamRoot
  | CallInstallDependencies _ => KInstallDependencies
  | CallNamedTemporaryFile _ => KNamedTemporaryFile
  | CallRun _ _ _ => KRun
  | CallPopen _ _ => KPopen
  | CallGetLatestRelease => KGetLatestRelease
  | CallDownloadFile _ _ _ => KDownloadFile
  end.

Definition kind_code (k : CallKind) : nat :=
  match k with
  | KFindAllGames => 0 | KGetPrefixesDir => 1 | KGetActiveProtonPath => 2
  | KSteamUtils => 3 | KGetSteamRoot => 4 | KInstallDependencies => 5
  | KNamedTemporaryFile => 6 | KRun => 7 | KPopen => 8
  | KGetLatestRelease => 9 | KDownloadFile => 10 | KFs => 11
  end.

Definition kind_eqb (a b : CallKind) : bool := Nat.eqb (kind_code a) (kind_code b).

(** The state: the files, the process environment, what was sent to the
    progress/log sink and to the logger, and the calls made to the
    collaborators and to the file system.  The three logs and the call
    trace are kept most recent first. *)
Record World := mkWorld {
  files : gmap string Node;
  environ : gmap string string;
  progress_lines : list string;
  progress_pcts : list nat;
  logger_errors : list string;
  calls : list Call
}.

Definition set_files (f : gmap string Node) (w : World) : World :=
  mkWorld f (environ w) (progress_lines w) (progress_pcts w) (logger_errors w) (calls w).

Definition add_call (c : Call) (w : World) : World :=
  mkWorld (files w) (environ w) (progress_lines w) (progress_pcts w) (logger_errors w)
          (c :: calls w).

Definition log_line (line : string) (w : World) : World :=
  mkWorld (files w) (environ w) (line :: progress_lines w) (progress_pcts w)
          (logger_errors w) (calls w).

Definition log_pct (pct : nat) (w : World) : World :=
  mkWorld (files w) (environ w) (progress_lines w) (pct :: progress_pcts w)
          (logger_errors w) (calls w).

Definition log_error (line : string) (w : World) : World :=
  mkWorld (files w) (environ w) (progress_lines w) (progress_pcts w)
          (line :: logger_errors w) (calls w).

(** How many calls of kind [k] the trace holds. *)
Fixpoint served (k : CallKind) (cs : list Call) : nat :=
  match cs with
  | [] => 0
  | c :: r => (if kind_eqb (kind_of c) k then 1 else 0) + served k r
  end.

(** What a collaborator may do to the files while it runs. *)
Definition Effect := gmap string Node -> gmap string Node.

(** The collaborators.  Each answers its [n]-th call (counting from 0),
    given the arguments, by returning or raising; the guest processes, the
    dependency installer and the downloader may also change files. *)
Record Collaborators := mkCollaborators {
  find_all_games : nat -> outcome (list Game);
  get_prefixes_dir : nat -> outcome Path;
  get_active_proton_path : nat -> outcome (option Path);
  SteamUtils : nat -> outcome unit;
  get_steam_root : nat -> outcome string;
  _install_dependencies_unified : nat -> DepArgs -> Effect * outcome DepResult;
  NamedTemporaryFile : nat -> string -> outcome string;
  subprocess_run : nat -> list string -> gmap string string -> nat ->
                   Effect * outcome CompletedProcess;
  subprocess_Popen : nat -> list string -> gmap string string -> outcome unit;
  get_latest_release : nat -> outcome (option Release);
  download_file : nat -> string -> string -> bool -> Effect * outcome (option string)
}.

(** ** The monad of the methods: state that survives a raised exception *)

Definition M (A : Type) : Type := World -> World * outcome A.

Definition ret {A} (a : A) : M A := fun w => (w, Ret a).
Definition raise {A} (e : Exn) : M A := fun w => (w, Raise e).

Definition bind {A B} (m : M A) (k : A -> M B) : M B :=
  fun w => match m w with
           | (w', Ret a) => k a w'
           | (w', Raise e) => (w', Raise e)
           end.

(** [try: body except Exception as e: handler] *)
Definition try_except {A} (body : M A) (handler : Exn -> M A) : M A :=
  fun w => match body w with
           | (w', Ret a) => (w', Ret a)
           | (w', Raise e) => handler e w'
           end.

#[global] Instance M_ret : MRet M := @ret.
#[global] Instance M_bind : MBind M := fun A B k m => bind m k.

Definition result {A} (r : World * outcome A) : outcome A := snd r.
Definition after {A} (r : World * outcome A) : World := fst r.

(** A call whose answer is a value. *)
Definition ask {A} (c : Call) (answer : nat -> outcome A) : M A :=
  fun w => (add_call c w, answer (served (kind_of c) (calls w))).

(** A call that may also change files before it answers. *)
Definition ask_fx {A} (c : Call) (answer : nat -> Effect * outcome A) : M A :=
  fun w => let '(fx, r) := answer (served (kind_of c) (calls w)) in
           (add_call c (set_files (fx (files w)) w), r).

(** *** Sinks *)

(** Modelled from the spec: [_log_progress] of the absent [BaseInstaller];
    the progress/log sink receives the text line and has no behaviour of
    its own. *)
Definition _log_progress (line : string) : M unit :=
  fun w => (log_line line w, Ret tt).

(** Modelled from the spec: [_send_progress_update] of the absent
    [BaseInstaller]; the sink receives the percentage. *)
Definition _send_progress_update (pct : nat) : M unit :=
  fun w => (log_pct pct w, Ret tt).

(** Modelled from the spec: [set_progress_callback] and [set_log_callback]
    of the absent [BaseInstaller]; they only choose the sink. *)
Definition set_callbacks : M unit := ret tt.

(** [self.logger.error(line)] *)
Definition logger_error (line : string) : M unit :=
  fun w => (log_error line w, Ret tt).

(** *** Files *)

Definition path_exists (p : Path) : M bool :=
  fun w => (add_call (FsExists (path_str p)) w,
            Ret (bool_decide (is_Some (files w !! path_str p)))).

Definition ensure_dir (key : string) (f : gmap string Node) : gmap string Node :=
  match f !! key with
  | Some _ => f
  | None => <[key := Dir]> f
  end.

(** The path itself and every ancestor below the anchor, outermost first. *)
Definition lineage (p : Path) : list Path :=
  List.map (fun n => {| anchor := anchor p; parts := firstn (S n) (parts p) |})
           (seq 0 (length (parts p))).

(** [p.mkdir(parents=True, exist_ok=True)] *)
Definition mkdir_parents (p : Path) : M unit :=
  fun w => (add_call (FsMkdir (path_str p))
              (set_files (fold_left (fun f d => ensure_dir (path_str d) f) (lineage p)
                                    (files w)) w),
            Ret tt).

(** [p.touch()] *)
Definition touch (p : Path) : M unit :=
  fun w => (add_call (FsTouch (path_str p))
              (match files w !! path_str p with
               | Some _ => w
               | None => set_files (<[path_str p := File "" default_mode]> (files w)) w
               end),
            Ret tt).

(** [p.write_text(data)]: truncates an existing file, whose mode stays. *)
Definition write_text (p : Path) (data : string) : M unit :=
  fun w => let m := match files w !! path_str p with
                    | Some (File _ m) => m
                    | _ => default_mode
                    end in
           (add_call (FsWriteText (path_str p) data)
              (set_files (<[path_str p := File data m]> (files w)) w),
            Ret tt).

(** [p.chmod(mode)] *)
Definition chmod (p : Path) (mode : nat) : M unit :=
  fun w => let w' := add_call (FsChmod (path_str p) mode) w in
           match files w !! path_str p with
           | Some (File c _) => (set_files (<[path_str p := File c mode]> (files w)) w', Ret tt)
           | Some Dir => (w', Ret tt)
           | None => (w', Raise (mkExn FileNotFoundError (path_str p)))
           end.

(** [p.unlink(missing_ok=...)] *)
Definition unlink (p : Path) (missing_ok : bool) : M unit :=
  fun w => let w' := add_call (FsUnlink (path_str p)) w in
           match files w !! path_str p with
           | Some _ => (set_files (delete (path_str p) (files w)) w', Ret tt)
           | None => if missing_ok then (w', Ret tt)
                     else (w', Raise (mkExn FileNotFoundError (path_str p)))
           end.

(** A file that [open] creates (or truncates) and fills; the file system
    addresses it by its normalised path. *)
Definition create_file (name data : string) (mode : nat) : M unit :=
  fun w => (set_files (<[path_str (Path_of name) := File data mode]> (files w)) w, Ret tt).

(** [os.environ.copy()] *)
Definition os_environ_copy : M (gmap string string) :=
  fun w => (w, Ret (environ w)).

(** ** SporeModLoaderInstaller *)

Definition LD_LIBRARY_PATH_value : string :=
  "/usr/lib:/usr/lib/x86_64-linux-gnu:/lib:/lib/x86_64-linux-gnu".

(** The environment both spawning methods build from [os.environ.copy()]. *)
Definition guest_env (environ : gmap string string) (prefix_path : Path)
  : gmap string string :=
  <["LD_LIBRARY_PATH" := LD_LIBRARY_PATH_value]>
    (<["WINEPREFIX" := path_str prefix_path]> environ).

Definition wine64_of (proton_path : Path) : Path :=
  parent proton_path // "files" // "bin" // "wine64".

Definition wineserver_of (proton_path : Path) : Path :=
  parent proton_path // "files" // "bin" // "wineserver".

Definition is_spore (game : Game) : bool :=
  Str.contains "spore" (Str.lower (name game)).

Definition instructions (wine_path_display spore_path : string) : string :=
  String.concat (Str.chr Str.nl) [
    "Installer opened! Follow these steps:";
    "";
    "1. Click " +:+ q "I am installing...for the first time";
    "";
    "2. Install location (recommended):";
    "   " +:+ wine_path_display;
    "";
    "3. Complete and click " +:+ q "Exit";
    "";
    "(Spore dir: " +:+ spore_path +:+ ")"
  ].

Definition installer_asset : string := "ModAPI.InterimSetup.exe".

Definition skip_warning (exe_name : string) : string :=
  "Warning: " +:+ exe_name +:+ " not found, skipping script creation".

(** The three executables and their script names. *)
Definition executables : list (string * string) := [
  ("Spore ModAPI Launcher.exe", "launch_spore_modapi_launcher.sh");
  ("Spore ModAPI Easy Installer.exe", "launch_spore_modapi_installer.sh");
  ("Spore ModAPI Easy Uninstaller.exe", "launch_spore_modapi_uninstaller.sh")
].

(** The text of one launch script. *)
Definition launch_script (exe_name proton_ge_dir prefix_path steam_compat_data
                          wine_exe_path steam_path : string) : string :=
  String.concat (Str.chr Str.nl) [
    "#!/bin/bash";
    "# NaK Launch Script for Spore ModAPI - " +:+ exe_name;
    "# Generated by NaK Linux Modding Helper";
    "";
    "# Load user environment (dotfiles)";
    "if [ -f " +:+ q "$HOME/.bashrc" +:+ " ]; then";
    "    source " +:+ q "$HOME/.bashrc";
    "fi";
    "";
    "# Paths";
    "PROTON_GE=" +:+ q proton_ge_dir;
    "PREFIX=" +:+ q prefix_path;
    "COMPAT_DATA=" +:+ q steam_compat_data;
    "MODAPI_EXE=" +:+ q wine_exe_path;
    "STEAM_PATH=" +:+ q steam_path;
    "";
    "# Check if Proton-GE exists";
    "if [ ! -f " +:+ q "$PROTON_GE/proton" +:+ " ]; then";
    "    zenity --error --text="
      +:+ q "Proton-GE not found at $PROTON_GE\n\nPlease install Proton-GE using the Proton-GE Manager in NaK."
      +:+ " --title=" +:+ q "NaK - Error" +:+ " 2>/dev/null || \";
    "    echo " +:+ q "ERROR: Proton-GE not found at $PROTON_GE";
    "    exit 1";
    "fi";
    "";
    "# Set environment variables for Proton";
    "export WINEPREFIX=" +:+ q "$PREFIX";
    "export STEAM_COMPAT_DATA_PATH=" +:+ q "$COMPAT_DATA";
    "export STEAM_COMPAT_CLIENT_INSTALL_PATH=" +:+ q "$STEAM_PATH";
    "";
    "# Optional: Enable Wine debug output (comment out for production)";
    "# export WINEDEBUG=+all";
    "";
    "# Launch with Proton-GE";
    "echo " +:+ q ("Launching Spore ModAPI - " +:+ exe_name +:+ "...");
    "echo " +:+ q "Proton-GE: $PROTON_GE";
    "echo " +:+ q "Prefix: $PREFIX";
    "echo " +:+ q "Steam Path: $STEAM_PATH";
    "";
    q "$PROTON_GE/proton" +:+ " run " +:+ q "$MODAPI_EXE" +:+ " " +:+ q "$@";
    ""
  ].

(** The keyword arguments [install] passes to the dependency installer. *)
Definition dependency_args (proton_path prefix_path : Path) (steam_client_path : string)
  : DepArgs :=
  {| dep_game := ("SporeModLoader", "spore_modloader");
     dependencies := ["vcrun2022"; "d3dcompiler_43"];
     wine_binary := path_str (wine64_of proton_path);
     wineserver_binary := path_str (wineserver_of proton_path);
     wine_prefix := path_str prefix_path;
     steam_compat_data_path := path_str (parent prefix_path);
     steam_compat_client_path := steam_client_path;
     method_name := "Proton-GE" |}.

Definition dependency_marker (prefix_path : Path) : Path :=
  prefix_path // ".dependencies_installed".

(** [x or default] on an optional string *)
Definition str_or (x : option string) (default : string) : string :=
  match x with
  | Some s => if String.eqb s "" then default else s
  | None => default
  end.

(** Truthiness of an optional string. *)
Definition truthy (x : option string) : bool :=
  match x with
  | Some s => negb (String.eqb s "")
  | None => false
  end.

Section Installer.

Context (C : Collaborators).

(** The [for game in all_games] loop of [find_spore_game]. *)
Fixpoint find_spore_loop (all_games : list Game) : M (option Game) :=
  match all_games with
  | [] =>
      _log_progress "Spore installation not found";;
      mret None
  | game :: rest =>
      if is_spore game then
        _log_progress ("Found Spore: " +:+ name game +:+ " at " +:+ path game);;
        mret (Some {| name := name game; path := path game; platform := platform game |})
      else find_spore_loop rest
  end.

Definition find_spore_game : M (option Game) :=
  _log_progress "Searching for Spore installation...";;
  try_except
    (all_games ← ask CallFindAllGames (find_all_games C);
     find_spore_loop all_games)
    (fun e =>
       logger_error ("Failed to find Spore: " +:+ exn_str e);;
       mret None).

(** [tempfile.NamedTemporaryFile(mode='w', suffix=..., delete=False)]
    followed by [f.write(data)]; the value is [f.name]. *)
Definition write_temporary_file (suffix data : string) : M string :=
  reg_file ← ask (CallNamedTemporaryFile suffix) (fun n => NamedTemporaryFile C n suffix);
  create_file reg_file data tempfile_mode;;
  mret reg_file.

Definition create_spore_registry (spore_path : string) (prefix_path : Path) : M bool :=
  _log_progress "Creating Spore registry entries...";;
  try_except
    (reg_file ← write_temporary_file ".reg" (reg_content spore_path);
     proton_path ← ask CallGetActiveProtonPath (get_active_proton_path C);
     match proton_path with
     | None =>
         _log_progress "Error: No active Proton-GE version";;
         mret false
     | Some proton_path =>
         let wine_path := wine64_of proton_path in
         env ← os_environ_copy;
         let env := guest_env env prefix_path in
         let argv := [path_str wine_path; "regedit"; reg_file] in
         result ← ask_fx (CallRun argv env 60) (fun n => subprocess_run C n argv env 60);
         unlink (Path_of reg_file) true;;
         if Nat.eqb (returncode result) 0 then
           _log_progress "[OK] Spore registry entries applied";;
           mret true
         else
           logger_error ("Registry application failed: " +:+ stderr result);;
           mret false
     end)
    (fun e =>
       logger_error ("Failed to create registry: " +:+ exn_str e);;
       mret false).

(** The [for asset in release.assets] loop: the URL of the first asset
    with the installer's name. *)
Fixpoint find_asset_url (assets : list Asset) : option (string * Asset) :=
  match assets with
  | [] => None
  | asset :: rest =>
      if String.eqb (asset_name asset) installer_asset
      then Some (browser_download_url asset, asset)
      else find_asset_url rest
  end.

Definition download_modapi_installer : M (option Path) :=
  _log_progress "Downloading ModAPI installer from GitHub...";;
  try_except
    (release ← ask CallGetLatestRelease (get_latest_release C);
     match release with
     | None =>
         _log_progress "Error: Could not fetch latest release";;
         mret None
     | Some release =>
         let asset_url := fst <$> find_asset_url (assets release) in
         (if bool_decide (is_Some asset_url) then
            _log_progress ("Found ModAPI.InterimSetup.exe in release " +:+ tag_name release)
          else mret tt);;
         if negb (truthy asset_url) then
           _log_progress "Error: ModAPI.InterimSetup.exe not found in release";;
           mret None
         else
           let url := default "" asset_url in
           _log_progress "Downloading ModAPI.InterimSetup.exe...";;
           downloaded_file ← ask_fx (CallDownloadFile url installer_asset true)
                               (fun n => download_file C n url installer_asset true);
           if negb (truthy downloaded_file) then
             _log_progress "Error: Failed to download ModAPI.InterimSetup.exe";;
             mret None
           else
             let downloaded_file := default "" downloaded_file in
             _log_progress ("Downloaded installer to: " +:+ downloaded_file);;
             mret (Some (Path_of downloaded_file))
     end)
    (fun e =>
       logger_error ("Failed to download installer: " +:+ exn_str e);;
       mret None).

Definition launch_installer_with_instructions
    (installer_exe prefix_path : Path) (spore_path : string) : M bool :=
  let wine_path_display := convert_to_wine_path_display spore_path in
  _log_progress (instructions wine_path_display spore_path);;
  try_except
    (proton_path ← ask CallGetActiveProtonPath (get_active_proton_path C);
     match proton_path with
     | None =>
         _log_progress "Error: No active Proton-GE version";;
         mret false
     | Some proton_path =>
         let wine_path := wine64_of proton_path in
         env ← os_environ_copy;
         let env := guest_env env prefix_path in
         let argv := [path_str wine_path; path_str installer_exe] in
         ask (CallPopen argv env) (fun n => subprocess_Popen C n argv env);;
         _log_progress "Installer launched. Complete the installation and click Exit.";;
         _log_progress "Then return to NaK to finish setup.";;
         mret true
     end)
    (fun e =>
       match exn_class e with
       | TimeoutExpired =>
           _log_progress "Warning: Installer timeout";;
           mret true
       | _ =>
           logger_error ("Failed to launch installer: " +:+ exn_str e);;
           _log_progress ("Error launching installer: " +:+ exn_str e);;
           mret false
       end).

Definition launcher_exe_name : string := "Spore ModAPI Launcher.exe".

Definition default_path (prefix_path : Path) : Path :=
  prefix_path // "drive_c" // "ProgramData" // "SPORE ModAPI Launcher Kit".
Definition alt_path1 (prefix_path : Path) : Path :=
  prefix_path // "drive_c" // "Program Files (x86)" // "Spore ModAPI Launcher Kit".
Definition alt_path2 (prefix_path : Path) : Path :=
  prefix_path // "drive_c" // "Program Files" // "Spore ModAPI Launcher Kit".

Definition find_modapi_installation (prefix_path : Path) : M (option Path) :=
  _log_progress "Locating ModAPI installation...";;
  found ← path_exists (default_path prefix_path // launcher_exe_name);
  if (found : bool) then
    _log_progress ("Found ModAPI installation at: " +:+ path_str (default_path prefix_path));;
    mret (Some (default_path prefix_path))
  else
    found ← path_exists (alt_path1 prefix_path // launcher_exe_name);
    if (found : bool) then
      _log_progress ("Found ModAPI installation at: " +:+ path_str (alt_path1 prefix_path));;
      mret (Some (alt_path1 prefix_path))
    else
      found ← path_exists (alt_path2 prefix_path // launcher_exe_name);
      if (found : bool) then
        _log_progress ("Found ModAPI installation at: " +:+ path_str (alt_path2 prefix_path));;
        mret (Some (alt_path2 prefix_path))
      else
        _log_progress "ERROR: Could not find ModAPI installation in Wine prefix";;
        mret None.

(** [steam_utils.get_steam_root()] behind its bare [except], as
    [create_launch_scripts] has it: the import and the constructor are
    inside the [try] too. *)
Definition steam_path_or (fallback : string) : M string :=
  try_except
    (ask CallSteamUtils (SteamUtils C);;
     ask CallGetSteamRoot (get_steam_root C))
    (fun _ => mret fallback).

(** The guest binary's path in the guest's own form. *)
Definition wine_exe_path_of (exe_path prefix_path : Path) : string :=
  Str.replace "/" "\"
    (Str.replace (path_str (prefix_path // "drive_c")) "C:" (path_str exe_path)).

(** The [for exe_name, script_name in executables] loop; the value is
    [created_scripts]. *)
Fixpoint create_scripts_loop (todo : list (string * string))
    (script_output_dir prefix_path modapi_install_dir proton_ge_dir : Path)
    (created_scripts : list string) : M (list string) :=
  match todo with
  | [] => mret created_scripts
  | (exe_name, script_name) :: rest =>
      let exe_path := modapi_install_dir // exe_name in
      found ← path_exists exe_path;
      if negb found then
        _log_progress (skip_warning exe_name);;
        create_scripts_loop rest script_output_dir prefix_path modapi_install_dir
                            proton_ge_dir created_scripts
      else
        let steam_compat_data := path_str (parent prefix_path) in
        let wine_exe_path := wine_exe_path_of exe_path prefix_path in
        steam_path ← steam_path_or "$HOME/.steam/steam";
        let script_path := script_output_dir // script_name in
        write_text script_path
          (launch_script exe_name (path_str proton_ge_dir) (path_str prefix_path)
                         steam_compat_data wine_exe_path steam_path);;
        chmod script_path mode_755;;
        _log_progress ("Created: " +:+ script_name);;
        create_scripts_loop rest script_output_dir prefix_path modapi_install_dir
                            proton_ge_dir (created_scripts ++ [script_name])
  end.

Definition NoneType_parent : Exn :=
  mkExn AttributeError "'NoneType' object has no attribute 'parent'".

Definition create_launch_scripts (script_output_dir prefix_path : Path)
    (modapi_install_dir : option Path) : M bool :=
  _log_progress "Creating launch scripts...";;
  try_except
    (located ← match modapi_install_dir with
               | Some d => mret (Some d)
               | None => find_modapi_installation prefix_path
               end;
     match located with
     | None =>
         _log_progress "ERROR: Could not find ModAPI installation";;
         mret false
     | Some modapi_install_dir =>
         proton_path ← ask CallGetActiveProtonPath (get_active_proton_path C);
         match proton_path with
         | None => raise NoneType_parent
         | Some proton_path =>
             created_scripts ← create_scripts_loop executables script_output_dir prefix_path
                                 modapi_install_dir (parent proton_path) [];
             match created_scripts with
             | _ :: _ =>
                 _log_progress ("[OK] Created " +:+ pretty (length created_scripts)
                                +:+ " launch script(s)");;
                 mret true
             | [] =>
                 _log_progress "Warning: No launch scripts created (executables not found)";;
                 mret false
             end
         end
     end)
    (fun e =>
       logger_error ("Failed to create launch scripts: " +:+ exn_str e);;
       mret false).

(** Step 3 of [install] (the dependency check and installation): the value
    is [false] where the method executes [return False], [true] where it
    goes on to the next step.  Handing the two callbacks on to the
    dependency installer only chooses its sink and is left out. *)
Definition ensure_dependencies (prefix_path : Path) : M bool :=
  let dependency_marker := dependency_marker prefix_path in
  present ← path_exists dependency_marker;
  if (present : bool) then
    _log_progress "Dependencies already installed, skipping...";;
    mret true
  else
    _log_progress "Installing Windows dependencies (vcrun2022, d3dcompiler_43)...";;
    proton_path ← ask CallGetActiveProtonPath (get_active_proton_path C);
    match proton_path with
    | None =>
        _log_progress "ERROR: No active Proton-GE version";;
        mret false
    | Some proton_path =>
        ask CallSteamUtils (SteamUtils C);;
        steam_client_path ← try_except (ask CallGetSteamRoot (get_steam_root C))
                                       (fun _ => mret "/tmp");
        let args := dependency_args proton_path prefix_path steam_client_path in
        result ← ask_fx (CallInstallDependencies args)
                   (fun n => _install_dependencies_unified C n args);
        if negb (success result) then
          _log_progress ("ERROR: Failed to install dependencies: " +:+ error result);;
          mret false
        else
          touch dependency_marker;;
          _log_progress "[OK] Dependencies installed successfully";;
          mret true
    end.

(** Steps 4 to 6 of [install]. *)
Definition install_guest (spore_path : string) (prefix_path : Path) : M bool :=
  _send_progress_update 40;;
  applied ← create_spore_registry spore_path prefix_path;
  (if negb applied then _log_progress "WARNING: Failed to apply registry keys"
   else mret tt);;
  _send_progress_update 50;;
  installer_exe ← download_modapi_installer;
  match installer_exe with
  | None =>
      _log_progress "ERROR: Failed to download installer";;
      mret false
  | Some installer_exe =>
      _send_progress_update 60;;
      launched ← launch_installer_with_instructions installer_exe prefix_path spore_path;
      if negb launched then
        _log_progress "ERROR: Installer failed";;
        mret false
      else
        _send_progress_update 100;;
        _log_progress "";;
        _log_progress "=== Setup Complete! ===";;
        _log_progress "The ModAPI installer is now running.";;
        _log_progress "Complete the installation, then return to NaK to create launch scripts.";;
        mret true
  end.

(** Steps 1 to 3 of [install]: the game and the sandbox it goes on with,
    or [None] where the method executes [return False]. *)
Definition locate_and_prepare (custom_name : option string) : M (option (string * Path)) :=
  set_callbacks;;
  _log_progress "=== Starting Spore Mod Loader Installation ===";;
  _send_progress_update 0;;
  _send_progress_update 5;;
  spore_game ← find_spore_game;
  match spore_game with
  | None =>
      _log_progress "ERROR: Spore not found. Please install Spore first.";;
      mret None
  | Some spore_game =>
      let spore_path := path spore_game in
      let prefix_name := str_or custom_name "spore_modloader" in
      prefixes_dir ← ask CallGetPrefixesDir (get_prefixes_dir C);
      let prefix_path := prefixes_dir // prefix_name // "pfx" in
      present ← path_exists prefix_path;
      (if (present : bool) then
         _log_progress ("Using existing Wine prefix: " +:+ path_str prefix_path)
       else
         mkdir_parents prefix_path;;
         _log_progress ("Created Wine prefix: " +:+ path_str prefix_path));;
      _send_progress_update 10;;
      _send_progress_update 15;;
      go_on ← ensure_dependencies prefix_path;
      if negb go_on then mret None
      else mret (Some (spore_path, prefix_path))
  end.

(** [install(custom_name=..., log_callback=...)]; [log_callback] tells
    whether a log callback was given.  The method never reads
    [install_dir]. *)
Definition install (custom_name : option string) (log_callback : bool) : M bool :=
  try_except
    (prepared ← locate_and_prepare custom_name;
     match prepared with
     | None => mret false
     | Some (spore_path, prefix_path) => install_guest spore_path prefix_path
     end)
    (fun e =>
       logger_error ("Failed to install Spore Mod Loader: " +:+ exn_str e);;
       (if log_callback then _log_progress ("Error: " +:+ exn_str e) else mret tt);;
       mret false).

End Installer.

(** ** Vocabulary of the properties *)

(** A name mentions Spore when some stretch of it reads "spore" once
    lowered: the substring in any letter case. *)
Definition mentions_spore (s : string) : Prop :=
  exists a m b, s = a +:+ m +:+ b /\ Str.lower m = "spore".

(** The locator yields no matching record: no name it lists mentions
    Spore, or it raises. *)
Definition no_spore_record (answer : outcome (list Game)) : Prop :=
  match answer with
  | Ret games => forall g, In g games -> ~ mentions_spore (name g)
  | Raise _ => True
  end.

(** The client path [install] hands to the dependency installer: the Steam
    root, or the fallback when resolving it raises. *)
Definition steam_client_path_of (answer : outcome string) : string :=
  match answer with
  | Ret s => s
  | Raise _ => "/tmp"
  end.

(** The marker executable is present in a candidate directory. *)
Definition has_marker (fs : gmap string Node) (d : Path) : bool :=
  bool_decide (is_Some (fs !! path_str (d // launcher_exe_name))).

(** The candidate directories in the order the method probes them. *)
Definition candidates (prefix_path : Path) : list Path :=
  [default_path prefix_path; alt_path1 prefix_path; alt_path2 prefix_path].

(** The order as the specification words it: the shared program data
    location, then the 64-bit-style program-files directory, then the
    32-bit-style one. *)
Definition candidates_as_specified (prefix_path : Path) : list Path :=
  [default_path prefix_path; alt_path2 prefix_path; alt_path1 prefix_path].

(** The candidates probed on the way to the first that has the marker. *)
Fixpoint probes (fs : gmap string Node) (cands : list Path) : list Path :=
  match cands with
  | [] => []
  | d :: rest => d :: (if has_marker fs d then [] else probes fs rest)
  end.

Definition probe_call (d : Path) : Call := FsExists (path_str (d // launcher_exe_name)).

(** The paths written with [write_text], most recent first. *)
Definition written_paths (cs : list Call) : list string :=
  flat_map (fun c => match c with FsWriteText p _ => [p] | _ => [] end) cs.

(** The progress lines that report a skipped executable. *)
Definition is_skip_warning (line : string) : bool :=
  existsb (fun entry => String.eqb line (skip_warning entry.1)) executables.

Definition skip_warnings (lines : list string) : list string :=
  List.filter is_skip_warning lines.

(** The executable of an entry of [executables] is present under the
    install root. *)
Definition exe_present (fs : gmap string Node) (modapi_install_dir : Path)
    (entry : string * string) : bool :=
  bool_decide (is_Some (fs !! path_str (modapi_install_dir // entry.1))).

(** The install root [create_launch_scripts] works on: the one given, or
    the one it finds. *)
Definition located_install (fs : gmap string Node) (prefix_path : Path)
    (modapi_install_dir : option Path) : option Path :=
  match modapi_install_dir with
  | Some d => Some d
  | None => List.find (has_marker fs) (candidates prefix_path)
  end.

(** The text [create_launch_scripts] writes for one executable, given the
    Steam path it resolved. *)
Definition script_text (prefix_path modapi_install_dir proton_ge_dir : Path)
    (exe_name steam_path : string) : string :=
  launch_script exe_name (path_str proton_ge_dir) (path_str prefix_path)
    (path_str (parent prefix_path))
    (wine_exe_path_of (modapi_install_dir // exe_name) prefix_path) steam_path.

(** What [str(p / name)] puts in front of [name]. *)
Definition dir_prefix (p : Path) : string :=
  match parts p with
  | [] => anchor p
  | _ => anchor p +:+ String.concat "/" (parts p) +:+ "/"
  end.

Fixpoint last_char (s : string) : option ascii :=
  match s with
  | "" => None
  | String c "" => Some c
  | String _ r => last_char r
  end.

(** Where the script of an entry of [executables] is written. *)
Definition script_key (script_output_dir : Path) (entry : string * string) : string :=
  path_str (script_output_dir // entry.2).

(** The key of the dependency marker in the file system. *)
Definition marker_key (prefix_path : Path) : string :=
  path_str (dependency_marker prefix_path).

Definition registry_warning : string := "WARNING: Failed to apply registry keys".

(** The environment of a call that spawns a guest process. *)
Definition spawn_env (c : Call) : option (gmap string string) :=
  match c with
  | CallRun _ env _ => Some env
  | CallPopen _ env => Some env
  | _ => None
  end.

(** The library search path of [guest] is that of [host] with more
    appended: what [host] lists is still part of it. *)
Definition appends_library_path (host guest : gmap string string) : Prop :=
  forall old, host !! "LD_LIBRARY_PATH" = Some old ->
    exists v, guest !! "LD_LIBRARY_PATH" = Some v /\ Str.contains old v = true.

(** ** More of the installer *)

Definition required_files : list string := [
  "Spore ModAPI Launcher.exe";
  "Spore ModAPI Easy Installer.exe";
  "Spore ModAPI Easy Uninstaller.exe"
].

(** The [for filename in required_files] loop of [verify_installation];
    the value is [all_found]. *)
Fixpoint verify_loop (todo : list string) (install_dir : Path) (all_found : bool) : M bool :=
  match todo with
  | [] => mret all_found
  | filename :: rest =>
      found ← path_exists (install_dir // filename);
      if (found : bool) then
        _log_progress ("  Found: " +:+ filename);;
        verify_loop rest install_dir all_found
      else
        _log_progress ("  Missing: " +:+ filename);;
        verify_loop rest install_dir false
  end.

Definition verify_installation (install_dir : Path) : M bool :=
  _log_progress "Verifying installation...";;
  verify_loop required_files install_dir true.

(** ** More vocabulary *)

(** [s[n:]] *)
Fixpoint drop (n : nat) (s : string) : string :=
  match n, s with
  | S k, String _ r => drop k r
  | _, _ => s
  end.

(** Reading a display path back: the drive prefix goes, backslashes turn
    into slashes. *)
Definition host_of_display (s : string) : string := Str.replace "\" "/" (drop 3 s).

(** Reading a registry path back: the escaped drive prefix goes, escaped
    backslashes turn into slashes. *)
Definition host_of_registry (s : string) : string := Str.replace "\\" "/" (drop 4 s).

(** The percentages of a complete run, in the order sent. *)
Definition progress_plan : list nat := [0; 5; 10; 15; 40; 50; 60; 100].

(** A file [required_files] names is present under the install root. *)
Definition file_present (fs : gmap string Node) (install_dir : Path) (filename : string)
  : bool :=
  bool_decide (is_Some (fs !! path_str (install_dir // filename))).

(** The URL [download_modapi_installer] asks for: that of the first asset
    with the installer's name, when it is not empty. *)
Definition chosen_url (release : Release) : option string :=
  match find_asset_url (assets release) with
  | Some (url, _) => if String.eqb url "" then None else Some url
  | None => None
  end.

(** A raised exception that [launch_installer_with_instructions] takes
    for a timeout. *)
Definition is_timeout (e : Exn) : bool :=
  match exn_class e with
  | TimeoutExpired => true
  | _ => false
  end.

(** The line [verify_installation] logs for one file. *)
Definition verify_line (fs : gmap string Node) (install_dir : Path) (filename : string)
  : string :=
  if file_present fs install_dir filename then "  Found: " +:+ filename
  else "  Missing: " +:+ filename.

(** The progress line that ends the search of [find_spore_game]. *)
Definition search_line (found : option Game) : string :=
  match found with
  | Some game => "Found Spore: " +:+ name game +:+ " at " +:+ path game
  | None => "Spore installation not found"
  end.

(** ** Scenarios

    Concrete collaborators and worlds on which the properties are
    exercised. *)

Module Scenario.

Definition empty_world : World := mkWorld ∅ ∅ [] [] [] [].

Definition with_files (l : list (string * Node)) : World :=
  mkWorld (list_to_map l) ∅ [] [] [] [].

Definition games : list Game := [
  mkGame "The Elder Scrolls V: Skyrim" "/games/Skyrim" "steam";
  mkGame "SPORE: Galactic Adventures" "/games/Spore" "steam";
  mkGame "Spore" "/games/Spore0" "gog"
].

Definition release : Release :=
  mkRelease "v1.5.0" [mkAsset "Source.zip" "https://example.invalid/src";
                      mkAsset "ModAPI.InterimSetup.exe" "https://example.invalid/setup"].

(** Every collaborator answers; the registry import exits with [code]. *)
Definition cooperative (all_games : list Game) (code : nat) : Collaborators := {|
  find_all_games := fun _ => Ret all_games;
  get_prefixes_dir := fun _ => Ret (Path_of "/home/user/NaK/Prefixes");
  get_active_proton_path := fun _ => Ret (Some (Path_of "/opt/GE-Proton9/proton"));
  SteamUtils := fun _ => Ret tt;
  get_steam_root := fun _ => Ret "/home/user/.steam/steam";
  _install_dependencies_unified := fun _ _ => (id, Ret (mkDepResult true ""));
  NamedTemporaryFile := fun _ _ => Ret "/tmp/tmp8x2k.reg";
  subprocess_run := fun _ _ _ _ => (id, Ret (mkProc code "" "regedit: failed"));
  subprocess_Popen := fun _ _ _ => Ret tt;
  get_latest_release := fun _ => Ret (Some release);
  download_file := fun _ _ _ _ => (id, Ret (Some "/home/user/.cache/ModAPI.InterimSetup.exe"))
|}.

(** As [cooperative], but the registry import exceeds its 60 second
    ceiling: [subprocess.run] raises [TimeoutExpired]. *)
Definition slow_import : Collaborators := {|
  find_all_games := fun _ => Ret games;
  get_prefixes_dir := fun _ => Ret (Path_of "/home/user/NaK/Prefixes");
  get_active_proton_path := fun _ => Ret (Some (Path_of "/opt/GE-Proton9/proton"));
  SteamUtils := fun _ => Ret tt;
  get_steam_root := fun _ => Ret "/home/user/.steam/steam";
  _install_dependencies_unified := fun _ _ => (id, Ret (mkDepResult true ""));
  NamedTemporaryFile := fun _ _ => Ret "/tmp/tmp8x2k.reg";
  subprocess_run := fun _ _ _ _ =>
    (id, Raise (mkExn TimeoutExpired "Command timed out after 60 seconds"));
  subprocess_Popen := fun _ _ _ => Ret tt;
  get_latest_release := fun _ => Ret (Some release);
  download_file := fun _ _ _ _ => (id, Ret (Some "/home/user/.cache/ModAPI.InterimSetup.exe"))
|}.

Definition prefix_path : Path := Path_of "/home/user/NaK/Prefixes/spore_modloader/pfx".

Definition exe (dir name : string) : string * Node :=
  (path_str (prefix_path // "drive_c" // dir // "Spore ModAPI Launcher Kit" // name),
   File "MZ" default_mode).

(** The guest installer was pointed at both program-files directories. *)
Definition both_program_files : World :=
  with_files [exe "Program Files" "Spore ModAPI Launcher.exe";
              exe "Program Files (x86)" "Spore ModAPI Launcher.exe"].

(** Only the launcher is installed, in the default directory. *)
Definition only_launcher : World :=
  with_files [(path_str (default_path prefix_path // "Spore ModAPI Launcher.exe"),
               File "MZ" default_mode)].

(** The host defines a library search path of its own. *)
Definition host_with_library_path : World :=
  mkWorld ∅ (<["LD_LIBRARY_PATH" := "/opt/host/lib"]> (<["HOME" := "/home/user"]> ∅))
          [] [] [] [].

End Scenario.

Module Cases.

Definition base : Collaborators := Scenario.cooperative Scenario.games 0.

(** [base] with another runtime manager. *)
Definition with_runtime (answer : nat -> outcome (option Path)) : Collaborators := {|
  find_all_games := find_all_games base;
  get_prefixes_dir := get_prefixes_dir base;
  get_active_proton_path := answer;
  SteamUtils := SteamUtils base;
  get_steam_root := get_steam_root base;
  _install_dependencies_unified := _install_dependencies_unified base;
  NamedTemporaryFile := NamedTemporaryFile base;
  subprocess_run := subprocess_run base;
  subprocess_Popen := subprocess_Popen base;
  get_latest_release := get_latest_release base;
  download_file := download_file base
|}.

(** [base] with another dependency installer. *)
Definition with_installer (answer : nat -> DepArgs -> Effect * outcome DepResult)
  : Collaborators := {|
  find_all_games := find_all_games base;
  get_prefixes_dir := get_prefixes_dir base;
  get_active_proton_path := get_active_proton_path base;
  SteamUtils := SteamUtils base;
  get_steam_root := get_steam_root base;
  _install_dependencies_unified := answer;
  NamedTemporaryFile := NamedTemporaryFile base;
  subprocess_run := subprocess_run base;
  subprocess_Popen := subprocess_Popen base;
  get_latest_release := get_latest_release base;
  download_file := download_file base
|}.

(** [base] with another process spawner. *)
Definition with_popen (answer : outcome unit) : Collaborators := {|
  find_all_games := find_all_games base;
  get_prefixes_dir := get_prefixes_dir base;
  get_active_proton_path := get_active_proton_path base;
  SteamUtils := SteamUtils base;
  get_steam_root := get_steam_root base;
  _install_dependencies_unified := _install_dependencies_unified base;
  NamedTemporaryFile := NamedTemporaryFile base;
  subprocess_run := subprocess_run base;
  subprocess_Popen := fun _ _ _ => answer;
  get_latest_release := get_latest_release base;
  download_file := download_file base
|}.

(** [base] with another sandbox root resolver. *)
Definition with_prefixes_dir (answer : outcome Path) : Collaborators := {|
  find_all_games := find_all_games base;
  get_prefixes_dir := fun _ => answer;
  get_active_proton_path := get_active_proton_path base;
  SteamUtils := SteamUtils base;
  get_steam_root := get_steam_root base;
  _install_dependencies_unified := _install_dependencies_unified base;
  NamedTemporaryFile := NamedTemporaryFile base;
  subprocess_run := subprocess_run base;
  subprocess_Popen := subprocess_Popen base;
  get_latest_release := get_latest_release base;
  download_file := download_file base
|}.

(** [base] with another release feed. *)
Definition with_release (answer : outcome (option Release)) : Collaborators := {|
  find_all_games := find_all_games base;
  get_prefixes_dir := get_prefixes_dir base;
  get_active_proton_path := get_active_proton_path base;
  SteamUtils := SteamUtils base;
  get_steam_root := get_steam_root base;
  _install_dependencies_unified := _install_dependencies_unified base;
  NamedTemporaryFile := NamedTemporaryFile base;
  subprocess_run := subprocess_run base;
  subprocess_Popen := subprocess_Popen base;
  get_latest_release := fun _ => answer;
  download_file := download_file base
|}.

(** A release that ships the sources only. *)
Definition sources_only : Release :=
  mkRelease "v1.4.0" [mkAsset "Source.zip" "https://example.invalid/src";
                      mkAsset "modapi.interimsetup.exe" "https://example.invalid/lower"].

Definition proton : Path := Path_of "/opt/GE-Proton9/proton".

(** All three guest executables in the default directory. *)
Definition all_installed : World :=
  Scenario.with_files
    (List.map (fun name => (path_str (default_path Scenario.prefix_path // name),
                            File "MZ" default_mode))
              required_files).

End Cases.

(** * Properties *)

(** ** Strings *)

Module StrFacts.
Import Str.

Lemma append_assoc (a b c : string) : (a +:+ b) +:+ c = a +:+ (b +:+ c).
Proof. induction a as [|x a IH]; simpl; [reflexivity | now rewrite IH]. Qed.

Lemma ascii_eqb_dec (a b : ascii) :
  Ascii.eqb a b = if ascii_dec a b then true else false.
Proof.
  destruct (ascii_dec a b) as [->|Hne].
  - apply Ascii.eqb_refl.
  - now apply Ascii.eqb_neq.
Qed.

(** A one-character pattern is replaced character by character. *)
Lemma replace_char_cons (c x : ascii) (new s : string) :
  replace (chr c) new (String x s) =
  if Ascii.eqb c x then new +:+ replace (chr c) new s
  else String x (replace (chr c) new s).
Proof.
  unfold replace, chr. simpl. rewrite ascii_eqb_dec.
  destruct (ascii_dec c x); [now destruct s | reflexivity].
Qed.

Lemma replace_char_nil (c : ascii) (new : string) : replace (chr c) new "" = "".
Proof. reflexivity. Qed.

Lemma has_char_head (c : ascii) (s : string) : has_char c (String c s) = true.
Proof. simpl. now rewrite Ascii.eqb_refl. Qed.

Lemma has_char_app (c : ascii) (a b : string) :
  has_char c (a +:+ b) = has_char c a || has_char c b.
Proof.
  induction a as [|x a IH]; simpl; [reflexivity|].
  rewrite IH. now destruct (Ascii.eqb c x).
Qed.

(** Replacing a character brings in no character that is neither in the
    text nor in the replacement. *)
Lemma has_char_replace (c d : ascii) (new s : string) :
  has_char c new = false -> has_char c s = false ->
  has_char c (replace (chr d) new s) = false.
Proof.
  intros Hnew. induction s as [|x s IH]; intros Hs; [reflexivity|].
  simpl in Hs. apply orb_false_iff in Hs as [Hx Hs].
  rewrite replace_char_cons. destruct (Ascii.eqb d x).
  - rewrite has_char_app, Hnew. now apply IH.
  - simpl. rewrite Hx. now apply IH.
Qed.

(** *** Occurrences across a boundary *)

(** A token cannot run across a character it does not hold. *)
Lemma prefix_app_outside (tok x : string) (c : ascii) (r : string) :
  has_char c tok = false ->
  String.prefix tok (x +:+ String c r) = String.prefix tok x.
Proof.
  revert x. induction tok as [|t tok IH]; intros x Hc.
  - now destruct x.
  - simpl in Hc. apply orb_false_iff in Hc as [Ht Hc].
    destruct x as [|a x]; simpl.
    + destruct (ascii_dec t c) as [->|]; [|reflexivity].
      now rewrite Ascii.eqb_refl in Ht.
    + destruct (ascii_dec t a); [now apply IH | reflexivity].
Qed.

Lemma occurrences_app_before (tok x : string) (c : ascii) (r : string) :
  has_char c tok = false ->
  occurrences tok (x +:+ String c r) = occurrences tok x + occurrences tok (String c r).
Proof.
  intros Hc. remember (occurrences tok (String c r)) as k eqn:Hk.
  induction x as [|a x IH]; [now rewrite Hk|].
  change (String a x +:+ String c r) with (String a (x +:+ String c r)).
  cbn [occurrences]. rewrite IH.
  change (String a (x +:+ String c r)) with (String a x +:+ String c r).
  rewrite prefix_app_outside by assumption. lia.
Qed.

Lemma occurrences_outside (tok : string) (c : ascii) (r : string) :
  has_char c tok = false -> tok <> "" ->
  occurrences tok (String c r) = occurrences tok r.
Proof.
  intros Hc Hne. destruct tok as [|t tok]; [congruence|].
  simpl in Hc. apply orb_false_iff in Hc as [Ht _].
  cbn [occurrences String.prefix].
  destruct (ascii_dec t c) as [->|]; [|reflexivity].
  now rewrite Ascii.eqb_refl in Ht.
Qed.

(** A token with no character of the replacement and not the replaced
    character occurs as often after the replacement as before. *)
Lemma prefix_replace (tok new s : string) (d : ascii) :
  has_char d tok = false ->
  (forall c, has_char c new = true -> has_char c tok = false) ->
  new <> "" ->
  String.prefix tok (replace (chr d) new s) = String.prefix tok s.
Proof.
  intros Hd Hnew Hne. revert s.
  induction tok as [|t tok IH]; intros s.
  - destruct (replace (chr d) new s); now destruct s.
  - simpl in Hd. apply orb_false_iff in Hd as [Ht Hd].
    destruct s as [|x s]; [reflexivity|].
    rewrite replace_char_cons.
    destruct (Ascii.eqb d x) eqn:Hdx.
    + apply Ascii.eqb_eq in Hdx as <-.
      destruct new as [|n new]; [congruence|].
      simpl. destruct (ascii_dec t n) as [->|].
      * specialize (Hnew n (has_char_head n new)).
        now rewrite has_char_head in Hnew.
      * destruct (ascii_dec t d) as [->|]; [|reflexivity].
        now rewrite Ascii.eqb_refl in Ht.
    + simpl. destruct (ascii_dec t x); [|reflexivity].
      apply IH; [assumption|].
      intros c Hc. specialize (Hnew c Hc). simpl in Hnew.
      now apply orb_false_iff in Hnew as [_ ?].
Qed.

Lemma occurrences_new_outside (tok new r : string) :
  (forall c, has_char c new = true -> has_char c tok = false) -> tok <> "" ->
  occurrences tok (new +:+ r) = occurrences tok r.
Proof.
  intros Hnew Hne. induction new as [|n new IH]; [reflexivity|].
  change (String n new +:+ r) with (String n (new +:+ r)).
  rewrite occurrences_outside; [|apply Hnew, has_char_head|assumption].
  apply IH. intros c Hc. apply Hnew. simpl. rewrite Hc. now destruct (Ascii.eqb c n).
Qed.

Lemma occurrences_replace (tok new s : string) (d : ascii) :
  has_char d tok = false ->
  (forall c, has_char c new = true -> has_char c tok = false) ->
  new <> "" -> tok <> "" ->
  occurrences tok (replace (chr d) new s) = occurrences tok s.
Proof.
  intros Hd Hnew Hne Htok. induction s as [|x s IH]; [reflexivity|].
  cbn [occurrences].
  rewrite <- (prefix_replace tok new (String x s) d Hd Hnew Hne).
  rewrite replace_char_cons. destruct (Ascii.eqb d x) eqn:Hdx.
  - rewrite occurrences_new_outside, IH by assumption.
    destruct new as [|n new]; [congruence|].
    destruct tok as [|t tok]; [congruence|].
    simpl. destruct (ascii_dec t n) as [->|]; [|reflexivity].
    specialize (Hnew n (has_char_head n new)).
    now rewrite has_char_head in Hnew.
  - cbn [occurrences]. now rewrite IH.
Qed.

Lemma split_on_clean (sep : ascii) (s : string) :
  has_char sep s = false -> split_on sep s = [s].
Proof.
  induction s as [|c s IH]; intros H; [reflexivity|].
  simpl in H. apply orb_false_iff in H as [Hc Hs].
  simpl. rewrite Ascii.eqb_sym. destruct (Ascii.eqb sep c); [discriminate|].
  now rewrite IH.
Qed.

Lemma split_on_app_sep (sep : ascii) (a b : string) :
  has_char sep a = false ->
  split_on sep (a +:+ String sep b) = a :: split_on sep b.
Proof.
  induction a as [|c a IH]; intros H.
  - simpl. now rewrite Ascii.eqb_refl.
  - simpl in H. apply orb_false_iff in H as [Hc Ha].
    simpl. rewrite Ascii.eqb_sym. destruct (Ascii.eqb sep c); [discriminate|].
    now rewrite IH.
Qed.

(** Splitting undoes joining when no line holds the separator. *)
Lemma split_on_concat (sep : ascii) (l : string) (ls : list string) :
  List.Forall (fun x => has_char sep x = false) (l :: ls) ->
  split_on sep (String.concat (chr sep) (l :: ls)) = l :: ls.
Proof.
  revert l. induction ls as [|l' ls IH]; intros l H.
  - simpl. apply split_on_clean. now inversion H.
  - inversion H as [|? ? Hl Hrest]; subst.
    change (String.concat (chr sep) (l :: l' :: ls))
      with (l +:+ String sep (String.concat (chr sep) (l' :: ls))).
    rewrite split_on_app_sep by assumption. now rewrite IH.
Qed.

End StrFacts.

(** ** Path Translator *)

Section PathTranslator.
Import Str StrFacts.

(** The two translations, character by character. *)
Lemma convert_to_wine_path_display_eq (p : string) :
  convert_to_wine_path_display p = "Z:\" +:+ replace (chr slash) "\" p.
Proof. reflexivity. Qed.

Lemma convert_to_wine_path_registry_eq (p : string) :
  convert_to_wine_path_registry p = "Z:\\" +:+ replace (chr slash) "\\" p.
Proof. reflexivity. Qed.

Lemma runs_registry_even (p : string) (cur : nat) :
  has_char bs p = false -> Nat.Even cur ->
  List.Forall Nat.Even (runs_go bs cur (replace (chr slash) "\\" p)).
Proof.
  revert cur. induction p as [|c p IH]; intros cur Hp Hcur.
  - simpl. destruct cur; repeat constructor; assumption.
  - cbn [has_char] in Hp. apply orb_false_iff in Hp as [Hc Hp].
    rewrite replace_char_cons. destruct (Ascii.eqb slash c) eqn:Hs.
    + change (runs_go bs cur ("\\" +:+ replace (chr slash) "\\" p))
        with (runs_go bs (S (S cur)) (replace (chr slash) "\\" p)).
      apply IH; [assumption|].
      destruct Hcur as [k ->]. exists (S k). lia.
    + cbn [runs_go]. destruct (Ascii.eqb bs c); [discriminate|].
      destruct cur.
      * apply IH; [assumption | now exists 0].
      * constructor; [assumption|]. apply IH; [assumption | now exists 0].
Qed.

(** In registry mode every run of backslashes has even length, for a host
    path that holds no backslash of its own: no backslash is left
    unescaped. *)
Lemma convert_to_wine_path_registry_escaped (p : string) :
  has_char bs p = false ->
  List.Forall Nat.Even (runs bs (convert_to_wine_path_registry p)).
Proof.
  intros Hp. rewrite convert_to_wine_path_registry_eq. unfold runs. simpl.
  apply runs_registry_even; [assumption | now exists 1].
Qed.

(** C8. The display translation of an absolute host path holds a doubled
    backslash: the one that ends the drive prefix meets the one that
    replaces the leading slash of the path.  (The claim says the display
    form holds none.) *)
Theorem convert_to_wine_path_display_doubled_backslash (p : string) :
  contains "\\" (convert_to_wine_path_display (String "/" p)) = true
  /\ String.prefix "Z:\\" (convert_to_wine_path_display (String "/" p)) = true.
Proof.
  rewrite convert_to_wine_path_display_eq, replace_char_cons.
  destruct (replace (chr slash) "\" p); split; reflexivity.
Qed.

(** C8, at a typical install path. *)
Example convert_to_wine_path_display_Spore :
  convert_to_wine_path_display "/home/user/Spore" = "Z:\\home\user\Spore".
Proof. reflexivity. Qed.

End PathTranslator.

(** ** Registry Document Synthesizer *)

Section RegistryDocument.
Import Str StrFacts.

Lemma occurrences_registry_path (p : string) :
  occurrences CDKEY (replace "/" "\\" p) = occurrences CDKEY p.
Proof.
  apply (occurrences_replace CDKEY "\\" p slash); try discriminate; try reflexivity.
  intros c Hc. simpl in Hc.
  destruct (Ascii.eqb c "\") eqn:E; [|discriminate].
  apply Ascii.eqb_eq in E as ->. reflexivity.
Qed.

Ltac cross_path :=
  rewrite ?append_assoc; cbn;
  rewrite occurrences_app_before by reflexivity.

Lemma occurrences_reg_content (p : string) :
  occurrences CDKEY (reg_content p) = 2 + 3 * occurrences CDKEY p.
Proof.
  rewrite <- (occurrences_registry_path p).
  unfold reg_content, convert_to_wine_path_registry, q, chr.
  remember (replace "/" "\\" p) as R eqn:HR. clear HR.
  unfold CDKEY.
  repeat cross_path. cbn. lia.
Qed.
Lemma registry_path_no_newline (p : string) :
  has_char nl p = false -> has_char nl (replace "/" "\\" p) = false.
Proof. intros H. now apply (has_char_replace nl slash "\\" p). Qed.

Lemma key_block_headers_reg_content (p : string) :
  has_char nl p = false ->
  key_block_headers (reg_content p) = [
    "[HKEY_LOCAL_MACHINE\Software\Wow6432Node\electronic arts\spore]";
    "[HKEY_LOCAL_MACHINE\Software\Wow6432Node\electronic arts\ea games\spore(tm)\ergc]";
    "[HKEY_LOCAL_MACHINE\Software\Wow6432Node\electronic arts\SPORE Creepy and Cute Parts Pack]";
    "[HKEY_LOCAL_MACHINE\Software\Wow6432Node\electronic arts\SPORE_EP1]"
  ].
Proof.
  intros Hp. apply registry_path_no_newline in Hp.
  unfold key_block_headers, split_lines, reg_content, convert_to_wine_path_registry.
  remember (replace "/" "\\" p) as R eqn:HR. clear HR.
  rewrite split_on_concat.
  - reflexivity.
  - repeat constructor; unfold q, chr; cbn; rewrite ?has_char_app, ?Hp; reflexivity.
Qed.

(** C1 (as stated) fails: the template names the placeholder twice, as the
    default value of the [ergc] key and as [ProductKey] of [SPORE_EP1]. *)
Lemma reg_content_one_token_counterexample :
  ~ (length (key_block_headers (reg_content "/home/user/Spore")) = 4 /\
     occurrences CDKEY (reg_content "/home/user/Spore") = 1).
Proof. intros [_ H]. vm_compute in H. discriminate. Qed.

(** C1 (amended). For every install path that holds no line break and
    does not itself contain the placeholder, the registry document has
    exactly four key-block headers and exactly two occurrences of
    [%CDKEY%]. *)
Theorem reg_content_four_headers_two_tokens (p : string) :
  has_char nl p = false ->
  occurrences CDKEY p = 0 ->
  length (key_block_headers (reg_content p)) = 4 /\
  occurrences CDKEY (reg_content p) = 2.
Proof.
  intros Hnl Htok. split.
  - now rewrite key_block_headers_reg_content.
  - rewrite occurrences_reg_content, Htok. reflexivity.
Qed.

Lemma reg_content_four_headers_two_tokens_witness :
  length (key_block_headers (reg_content "/home/user/Spore")) = 4 /\
  occurrences CDKEY (reg_content "/home/user/Spore") = 2.
Proof. apply reg_content_four_headers_two_tokens; reflexivity. Defined.

End RegistryDocument.

(** ** Worlds and the monad *)

Section WorldFacts.

Lemma files_log_line l w : files (log_line l w) = files w. Proof. reflexivity. Qed.
Lemma files_log_pct n w : files (log_pct n w) = files w. Proof. reflexivity. Qed.
Lemma files_log_error l w : files (log_error l w) = files w. Proof. reflexivity. Qed.
Lemma files_add_call c w : files (add_call c w) = files w. Proof. reflexivity. Qed.
Lemma files_set_files f w : files (set_files f w) = f. Proof. reflexivity. Qed.

Lemma calls_log_line l w : calls (log_line l w) = calls w. Proof. reflexivity. Qed.
Lemma calls_log_pct n w : calls (log_pct n w) = calls w. Proof. reflexivity. Qed.
Lemma calls_log_error l w : calls (log_error l w) = calls w. Proof. reflexivity. Qed.
Lemma calls_add_call c w : calls (add_call c w) = c :: calls w. Proof. reflexivity. Qed.
Lemma calls_set_files f w : calls (set_files f w) = calls w. Proof. reflexivity. Qed.

Lemma environ_log_line l w : environ (log_line l w) = environ w. Proof. reflexivity. Qed.
Lemma environ_log_pct n w : environ (log_pct n w) = environ w. Proof. reflexivity. Qed.
Lemma environ_log_error l w : environ (log_error l w) = environ w. Proof. reflexivity. Qed.
Lemma environ_add_call c w : environ (add_call c w) = environ w. Proof. reflexivity. Qed.
Lemma environ_set_files f w : environ (set_files f w) = environ w. Proof. reflexivity. Qed.

Lemma lines_log_line l w : progress_lines (log_line l w) = l :: progress_lines w.
Proof. reflexivity. Qed.
Lemma lines_log_pct n w : progress_lines (log_pct n w) = progress_lines w.
Proof. reflexivity. Qed.
Lemma lines_log_error l w : progress_lines (log_error l w) = progress_lines w.
Proof. reflexivity. Qed.
Lemma lines_add_call c w : progress_lines (add_call c w) = progress_lines w.
Proof. reflexivity. Qed.
Lemma lines_set_files f w : progress_lines (set_files f w) = progress_lines w.
Proof. reflexivity. Qed.

Lemma pcts_log_line l w : progress_pcts (log_line l w) = progress_pcts w.
Proof. reflexivity. Qed.
Lemma pcts_log_pct n w : progress_pcts (log_pct n w) = n :: progress_pcts w.
Proof. reflexivity. Qed.
Lemma pcts_log_error l w : progress_pcts (log_error l w) = progress_pcts w.
Proof. reflexivity. Qed.
Lemma pcts_add_call c w : progress_pcts (add_call c w) = progress_pcts w.
Proof. reflexivity. Qed.
Lemma pcts_set_files f w : progress_pcts (set_files f w) = progress_pcts w.
Proof. reflexivity. Qed.

End WorldFacts.

Create Rewrite HintDb world.

#[export] Hint Rewrite
  files_log_line files_log_pct files_log_error files_add_call files_set_files
  calls_log_line calls_log_pct calls_log_error calls_add_call calls_set_files
  environ_log_line environ_log_pct environ_log_error environ_add_call environ_set_files
  lines_log_line lines_log_pct lines_log_error lines_add_call lines_set_files
  pcts_log_line pcts_log_pct pcts_log_error pcts_add_call pcts_set_files
  : world.

Lemma app_cons_eq {A} (c : A) (l new old : list A) :
  l = (new ++ old)%list -> c :: l = ((c :: new) ++ old)%list.
Proof. now intros ->. Qed.

(** What a run adds to a trace or a log, on top of what was there. *)
Ltac new_items :=
  repeat (eapply app_cons_eq); exact (eq_refl : _ = ([] ++ _)%list).

(** Symbolic execution: the monad and the primitive actions unfold, the
    worlds and the texts stay folded. *)
Ltac mstep :=
  unfold set_callbacks;
  unfold mbind, M_bind, bind, mret, M_ret, ret, raise, try_except, ask, ask_fx,
    _log_progress, _send_progress_update, logger_error,
    path_exists, touch, write_text, chmod, unlink, create_file, mkdir_parents,
    os_environ_copy, result, after;
  cbn beta iota zeta delta [fst snd negb kind_of];
  autorewrite with world;
  cbn beta iota zeta delta [served kind_eqb kind_code kind_of Nat.eqb Nat.add].


(** ** Game locator *)

Section GameLocator.
Import Str StrFacts.
Context (C : Collaborators).

Lemma prefix_split (sub s : string) :
  String.prefix sub s = true -> exists b, s = sub +:+ b.
Proof.
  revert s. induction sub as [|c sub IH]; intros s H.
  - now exists s.
  - destruct s as [|d s]; [discriminate|]. simpl in H.
    destruct (ascii_dec c d) as [->|]; [|discriminate].
    destruct (IH s H) as [b ->]. now exists b.
Qed.

Lemma prefix_append (sub b : string) : String.prefix sub (sub +:+ b) = true.
Proof.
  induction sub as [|c sub IH]; [now destruct b|].
  simpl. destruct (ascii_dec c c); [assumption | congruence].
Qed.

Lemma contains_iff (sub s : string) :
  contains sub s = true <-> exists a b, s = a +:+ sub +:+ b.
Proof.
  split.
  - induction s as [|c s IH]; cbn [contains]; intros H.
    + apply orb_true_iff in H as [H|H]; [|discriminate].
      destruct (prefix_split _ _ H) as [b Hb]. now exists "", b.
    + apply orb_true_iff in H as [H|H].
      * destruct (prefix_split _ _ H) as [b Hb]. now exists "", b.
      * destruct (IH H) as (a & b & ->). now exists (String c a), b.
  - intros (a & b & ->). induction a as [|c a IH].
    + change ("" +:+ sub +:+ b) with (sub +:+ b).
      destruct (sub +:+ b) eqn:E; cbn [contains]; rewrite <- E, prefix_append; reflexivity.
    + change (String c a +:+ sub +:+ b) with (String c (a +:+ sub +:+ b)).
      cbn [contains]. rewrite IH. apply orb_true_r.
Qed.

Lemma lower_app (a b : string) : lower (a +:+ b) = lower a +:+ lower b.
Proof. induction a as [|c a IH]; simpl; [reflexivity | now rewrite IH]. Qed.

Lemma lower_app_inv (s x y : string) :
  lower s = x +:+ y -> exists a b, s = a +:+ b /\ lower a = x /\ lower b = y.
Proof.
  revert s. induction x as [|c x IH]; intros s H.
  - now exists "", s.
  - destruct s as [|d s]; [discriminate|]. simpl in H. injection H as Hc Hs.
    destruct (IH s Hs) as (a & b & -> & Ha & Hb).
    exists (String d a), b. simpl. now rewrite Hc, Ha.
Qed.

(** The test of the loop is the case-insensitive substring test. *)
Lemma is_spore_iff (game : Game) :
  is_spore game = true <-> mentions_spore (name game).
Proof.
  unfold is_spore, mentions_spore. rewrite contains_iff. split.
  - intros (a' & b' & H).
    destruct (lower_app_inv _ _ _ H) as (a & r & Hn & Ha & Hr).
    destruct (lower_app_inv _ _ _ Hr) as (m & b & -> & Hm & Hb).
    now exists a, m, b.
  - intros (a & m & b & -> & Hm).
    exists (lower a), (lower b). now rewrite !lower_app, Hm.
Qed.

Lemma find_spore_loop_result (games : list Game) (w : World) :
  result (find_spore_loop games w) = Ret (List.find is_spore games)
  /\ files (after (find_spore_loop games w)) = files w
  /\ calls (after (find_spore_loop games w)) = calls w
  /\ progress_pcts (after (find_spore_loop games w)) = progress_pcts w.
Proof.
  induction games as [|g games IH]; cbn [find_spore_loop List.find].
  - now mstep.
  - destruct (is_spore g); [|assumption]. mstep. now destruct g.
Qed.

Lemma find_spore_game_result (w : World) :
  result (find_spore_game C w) =
    Ret (match find_all_games C (served KFindAllGames (calls w)) with
         | Ret games => List.find is_spore games
         | Raise _ => None
         end)
  /\ files (after (find_spore_game C w)) = files w
  /\ calls (after (find_spore_game C w)) = CallFindAllGames :: calls w
  /\ progress_pcts (after (find_spore_game C w)) = progress_pcts w.
Proof.
  unfold find_spore_game. mstep.
  destruct (find_all_games C _) as [games|e].
  - match goal with |- context [find_spore_loop games ?w0] =>
      destruct (find_spore_loop_result games w0) as (Hr & Hf & Hc & Hp);
      destruct (find_spore_loop games w0) as [w' [o|e]] end;
      unfold result, after in *; cbn [fst snd] in *;
      [|discriminate]. rewrite Hr, Hf, Hc, Hp. now autorewrite with world.
  - now mstep.
Qed.

Lemma find_first (pre : list Game) (g : Game) (post : list Game) :
  (forall g', In g' pre -> is_spore g' = false) -> is_spore g = true ->
  List.find is_spore (pre ++ g :: post)%list = Some g.
Proof.
  intros Hpre Hg. induction pre as [|x pre IH]; simpl.
  - now rewrite Hg.
  - rewrite (Hpre x) by now left. apply IH. intros g' Hin. apply Hpre. now right.
Qed.

Lemma find_nothing (games : list Game) :
  (forall g, In g games -> is_spore g = false) -> List.find is_spore games = None.
Proof.
  intros H. induction games as [|x games IH]; [reflexivity|]. simpl.
  rewrite (H x) by now left. apply IH. intros g Hin. apply H. now right.
Qed.

Lemma not_spore (g : Game) : ~ mentions_spore (name g) -> is_spore g = false.
Proof.
  intros H. destruct (is_spore g) eqn:E; [|reflexivity].
  now apply is_spore_iff in E.
Qed.

End GameLocator.

(** C10. [find_spore_game] matches by case-insensitive substring: it
    returns the first record, in the locator's order, whose name mentions
    Spore in any letter case, and no record when no name does or when the
    locator raises. *)
Theorem find_spore_game_first_mention (C : Collaborators) (w : World) :
  let answer := find_all_games C (served KFindAllGames (calls w)) in
  (forall pre g post,
      answer = Ret (pre ++ g :: post)%list ->
      (forall g', In g' pre -> ~ mentions_spore (name g')) ->
      mentions_spore (name g) ->
      result (find_spore_game C w) = Ret (Some g))
  /\ (forall games,
      answer = Ret games ->
      (forall g, In g games -> ~ mentions_spore (name g)) ->
      result (find_spore_game C w) = Ret None)
  /\ (forall e, answer = Raise e -> result (find_spore_game C w) = Ret None).
Proof.
  intros answer. subst answer.
  destruct (find_spore_game_result C w) as (Hr & _). rewrite Hr. clear Hr.
  split; [|split].
  - intros pre g post -> Hpre Hg. f_equal. apply find_first.
    + intros g' Hin. apply not_spore. now apply Hpre.
    + now apply is_spore_iff.
  - intros games -> Hnone. f_equal. apply find_nothing.
    intros g Hin. apply not_spore. now apply Hnone.
  - now intros e ->.
Qed.

(** ** Sandbox Locator *)

Section SandboxLocator.

Lemma find_modapi_installation_spec (prefix_path : Path) (w : World) :
  let r := find_modapi_installation prefix_path w in
  result r = Ret (List.find (has_marker (files w)) (candidates prefix_path))
  /\ files (after r) = files w
  /\ calls (after r) =
       (rev (List.map probe_call (probes (files w) (candidates prefix_path))) ++ calls w)%list.
Proof.
  unfold find_modapi_installation, candidates, probe_call, has_marker.
  cbn [List.find probes List.map]. unfold has_marker. mstep.
  destruct (bool_decide (is_Some (files w !! path_str (default_path prefix_path // _))));
    mstep; [now mstep|].
  destruct (bool_decide (is_Some (files w !! path_str (alt_path1 prefix_path // _))));
    mstep; [now mstep|].
  destruct (bool_decide (is_Some (files w !! path_str (alt_path2 prefix_path // _))));
    now mstep.
Qed.

End SandboxLocator.

(** C4 (as stated) fails: with the marker executable in both program-files
    directories, the method returns the [Program Files (x86)] one, the
    32-bit-style directory, not the 64-bit-style one the stated order
    would give. *)
Lemma find_modapi_installation_order_counterexample :
  result (find_modapi_installation Scenario.prefix_path Scenario.both_program_files)
  <> Ret (List.find (has_marker (files Scenario.both_program_files))
                    (candidates_as_specified Scenario.prefix_path)).
Proof. vm_compute. discriminate. Qed.

(** C4 (amended). [find_modapi_installation] probes three fixed candidate
    directories in the fixed order: the shared program data location,
    then [Program Files (x86)] (32-bit-style), then [Program Files]
    (64-bit-style); it probes for the fixed marker executable, stops at
    the first candidate that has it and returns that candidate, and
    returns nothing when none has it.  It changes no file. *)
Theorem find_modapi_installation_first_candidate (prefix_path : Path) (w : World) :
  let r := find_modapi_installation prefix_path w in
  candidates prefix_path =
    [prefix_path // "drive_c" // "ProgramData" // "SPORE ModAPI Launcher Kit";
     prefix_path // "drive_c" // "Program Files (x86)" // "Spore ModAPI Launcher Kit";
     prefix_path // "drive_c" // "Program Files" // "Spore ModAPI Launcher Kit"]
  /\ result r = Ret (List.find (has_marker (files w)) (candidates prefix_path))
  /\ files (after r) = files w
  /\ calls (after r) =
       (rev (List.map probe_call (probes (files w) (candidates prefix_path))) ++ calls w)%list.
Proof. split; [reflexivity | apply find_modapi_installation_spec]. Qed.

(** ** Process Launcher *)

Section ProcessLauncher.
Context (C : Collaborators).

(** Every process [create_spore_registry] spawns gets the guest
    environment built from the host's. *)
Lemma create_spore_registry_spawns (spore_path : string) (prefix_path : Path) (w : World) :
  exists new,
    calls (after (create_spore_registry C spore_path prefix_path w)) = (new ++ calls w)%list
    /\ forall c env, In c new -> spawn_env c = Some env ->
         env = guest_env (environ w) prefix_path.
Proof.
  unfold create_spore_registry, write_temporary_file. mstep.
  destruct (NamedTemporaryFile C _ _) as [reg_file|e]; mstep.
  2: { eexists; split; [new_items|]. intros c env [<-|[]]; discriminate. }
  destruct (get_active_proton_path C _) as [[proton_path|]|e]; mstep.
  2, 3: eexists; (split; [new_items|]); intros c env [<-|[<-|[]]]; discriminate.
  destruct (subprocess_run C _ _ _ _) as [fx [proc|e]]; mstep.
  2: { eexists; split; [new_items|].
       intros c env [<-|[<-|[<-|[]]]]; cbn [spawn_env]; congruence. }
  destruct (fx _ !! _); mstep; destruct (Nat.eqb _ _); mstep;
    (eexists; split; [new_items|]);
    intros c env [<-|[<-|[<-|[<-|[]]]]]; cbn [spawn_env]; congruence.
Qed.

Lemma launch_installer_spawns (installer_exe prefix_path : Path) (spore_path : string)
    (w : World) :
  exists new,
    calls (after (launch_installer_with_instructions C installer_exe prefix_path spore_path w))
      = (new ++ calls w)%list
    /\ forall c env, In c new -> spawn_env c = Some env ->
         env = guest_env (environ w) prefix_path.
Proof.
  unfold launch_installer_with_instructions. mstep.
  destruct (get_active_proton_path C _) as [[proton_path|]|e]; mstep.
  - destruct (subprocess_Popen C _ _ _) as [[]|e]; mstep;
      [|destruct (exn_class e); mstep];
      (eexists; split; [new_items|]);
      intros c env [<-|[<-|[]]]; cbn [spawn_env]; congruence.
  - eexists; split; [new_items|]. intros c env [<-|[]]; discriminate.
  - destruct (exn_class e); mstep;
      (eexists; split; [new_items|]); intros c env [<-|[]]; discriminate.
Qed.

End ProcessLauncher.

Lemma guest_env_lookup (host : gmap string string) (prefix_path : Path) :
  guest_env host prefix_path !! "WINEPREFIX" = Some (path_str prefix_path)
  /\ guest_env host prefix_path !! "LD_LIBRARY_PATH" = Some LD_LIBRARY_PATH_value
  /\ forall k, k <> "WINEPREFIX" -> k <> "LD_LIBRARY_PATH" ->
       guest_env host prefix_path !! k = host !! k.
Proof.
  unfold guest_env. split; [|split].
  - rewrite lookup_insert_ne by discriminate. apply lookup_insert_eq.
  - apply lookup_insert_eq.
  - intros k H1 H2. now rewrite !lookup_insert_ne by congruence.
Qed.

(** C6 (as stated) fails: when the host defines [LD_LIBRARY_PATH], the
    registry import is spawned with the fixed list alone; what the host
    listed is gone, not appended to. *)
Lemma guest_env_appends_counterexample :
  ~ (forall c env,
       In c (calls (after (create_spore_registry (Scenario.cooperative Scenario.games 0)
                             "/games/Spore" Scenario.prefix_path
                             Scenario.host_with_library_path))) ->
       spawn_env c = Some env ->
       appends_library_path (environ Scenario.host_with_library_path) env).
Proof.
  intros H.
  destruct (create_spore_registry_spawns (Scenario.cooperative Scenario.games 0)
              "/games/Spore" Scenario.prefix_path Scenario.host_with_library_path)
    as (new & Hnew & Henv).
  set (c := CallRun ["/opt/GE-Proton9/files/bin/wine64"; "regedit"; "/tmp/tmp8x2k.reg"]
              (guest_env (environ Scenario.host_with_library_path) Scenario.prefix_path) 60).
  assert (Hin : In c (calls (after (create_spore_registry
                  (Scenario.cooperative Scenario.games 0) "/games/Spore"
                  Scenario.prefix_path Scenario.host_with_library_path)))).
  { right. left. reflexivity. }
  destruct (H c _ Hin eq_refl "/opt/host/lib" eq_refl) as (v & Hv & Hsub).
  destruct (guest_env_lookup (environ Scenario.host_with_library_path) Scenario.prefix_path)
    as (_ & Hld & _).
  rewrite Hld in Hv. injection Hv as <-. vm_compute in Hsub. discriminate.
Qed.

(** C6 (amended). Every guest process the launcher spawns, the bounded
    registry import and the fire-and-forget installer launch alike, gets
    the host environment with [WINEPREFIX] set to the sandbox root path
    and [LD_LIBRARY_PATH] set to the fixed list, which replaces whatever
    the host defined; every other variable is passed on unchanged. *)
Theorem spawned_guest_environment (C : Collaborators) (spore_path : string)
    (installer_exe prefix_path : Path) (w : World) :
  let guest_spawns (r : World * outcome bool) :=
    exists new,
      calls (after r) = (new ++ calls w)%list
      /\ forall c env, In c new -> spawn_env c = Some env ->
           env !! "WINEPREFIX" = Some (path_str prefix_path)
           /\ env !! "LD_LIBRARY_PATH" = Some LD_LIBRARY_PATH_value
           /\ forall k, k <> "WINEPREFIX" -> k <> "LD_LIBRARY_PATH" ->
                env !! k = environ w !! k in
  guest_spawns (create_spore_registry C spore_path prefix_path w)
  /\ guest_spawns (launch_installer_with_instructions C installer_exe prefix_path
                     spore_path w).
Proof.
  intros guest_spawns. subst guest_spawns. cbn beta. split;
    [destruct (create_spore_registry_spawns C spore_path prefix_path w) as (new & Hc & He)
    |destruct (launch_installer_spawns C installer_exe prefix_path spore_path w)
       as (new & Hc & He)];
    exists new; (split; [exact Hc|]); intros c env Hin Hs;
    rewrite (He c env Hin Hs); apply guest_env_lookup.
Qed.

(** ** Registry import and its temporary document *)

Section RegistryImport.
Context (C : Collaborators).

(** [unlink(missing_ok=True)] never raises, whether the file is there or
    not. *)
Lemma unlink_missing_ok (p : Path) (w : World) :
  result (unlink p true w) = Ret tt
  /\ files (after (unlink p true w)) !! path_str p = None.
Proof.
  unfold unlink. destruct (files w !! path_str p) eqn:E; mstep.
  - split; [reflexivity | apply lookup_delete_eq].
  - now split.
Qed.

(** Once the import has returned, with whatever exit code, the temporary
    document is gone and the method reports whether the code was 0. *)
Lemma create_spore_registry_import_returned (spore_path : string) (prefix_path : Path)
    (w : World) (reg_file : string) (proton_path : Path) (fx : Effect)
    (proc : CompletedProcess) :
  NamedTemporaryFile C (served KNamedTemporaryFile (calls w)) ".reg" = Ret reg_file ->
  get_active_proton_path C (served KGetActiveProtonPath (calls w)) = Ret (Some proton_path) ->
  subprocess_run C (served KRun (calls w))
    [path_str (wine64_of proton_path); "regedit"; reg_file]
    (guest_env (environ w) prefix_path) 60 = (fx, Ret proc) ->
  let r := create_spore_registry C spore_path prefix_path w in
  result r = Ret (Nat.eqb (returncode proc) 0)
  /\ files (after r) !! path_str (Path_of reg_file) = None
  /\ hd_error (calls (after r)) = Some (FsUnlink (path_str (Path_of reg_file))).
Proof.
  intros Htmp Hproton Hrun.
  unfold create_spore_registry, write_temporary_file. mstep.
  rewrite Htmp. mstep. rewrite Hproton. mstep. rewrite Hrun. mstep.
  destruct (fx _ !! _) eqn:E; mstep; destruct (Nat.eqb _ _); mstep;
    repeat split; try reflexivity; try apply lookup_delete_eq; exact E.
Qed.

(** When [subprocess.run] raises instead, as it does when the 60 second
    ceiling is exceeded, the method goes straight to its handler: the
    document is not unlinked. *)
Lemma create_spore_registry_import_raised (spore_path : string) (prefix_path : Path)
    (w : World) (reg_file : string) (proton_path : Path) (fx : Effect) (e : Exn) :
  NamedTemporaryFile C (served KNamedTemporaryFile (calls w)) ".reg" = Ret reg_file ->
  get_active_proton_path C (served KGetActiveProtonPath (calls w)) = Ret (Some proton_path) ->
  subprocess_run C (served KRun (calls w))
    [path_str (wine64_of proton_path); "regedit"; reg_file]
    (guest_env (environ w) prefix_path) 60 = (fx, Raise e) ->
  let r := create_spore_registry C spore_path prefix_path w in
  result r = Ret false
  /\ files (after r) =
       fx (<[path_str (Path_of reg_file) := File (reg_content spore_path) tempfile_mode]>
             (files w))
  /\ forall new, calls (after r) = (new ++ calls w)%list ->
       ~ In (FsUnlink (path_str (Path_of reg_file))) new.
Proof.
  intros Htmp Hproton Hrun.
  unfold create_spore_registry, write_temporary_file. mstep.
  rewrite Htmp. mstep. rewrite Hproton. mstep. rewrite Hrun. mstep.
  repeat split. intros new Hnew.
  change (CallRun ?a ?b ?c :: ?x :: ?y :: calls w)
    with ([CallRun a b c; x; y] ++ calls w)%list in Hnew.
  apply app_inv_tail in Hnew as <-.
  intros [H|[H|[H|[]]]]; discriminate.
Qed.

End RegistryImport.

(** C5. The registry import of a path under a runtime whose [regedit]
    exceeds the 60 second ceiling: [create_spore_registry] reports
    failure, makes no [unlink] call, and the temporary document is still
    on disk afterwards.  (The claim says the document is deleted whatever
    the outcome; the cleanup is skipped when [subprocess.run] raises.) *)
Theorem create_spore_registry_timeout_keeps_document :
  let r := create_spore_registry Scenario.slow_import "/games/Spore"
             Scenario.prefix_path Scenario.empty_world in
  result r = Ret false
  /\ files (after r) !! "/tmp/tmp8x2k.reg"
       = Some (File (reg_content "/games/Spore") tempfile_mode)
  /\ ~ In (FsUnlink "/tmp/tmp8x2k.reg") (calls (after r)).
Proof.
  vm_compute. repeat split. intros [H|[H|[H|[]]]]; discriminate.
Qed.

(** ** Install Pipeline *)

Lemma no_spore_record_find (answer : outcome (list Game)) :
  no_spore_record answer ->
  match answer with
  | Ret games => List.find is_spore games
  | Raise _ => None
  end = None.
Proof.
  destruct answer as [games|e]; [|reflexivity]. intros H.
  apply find_nothing. intros g Hin. apply not_spore. now apply H.
Qed.

(** C7. When the game locator yields no matching record, [install]
    returns failure having called nothing but the locator: no call to the
    file system (no sandbox directory is made) nor to any other
    collaborator, no file changed, and progress stops at 5. *)
Theorem install_without_game (C : Collaborators) (custom_name : option string)
    (log_callback : bool) (w : World) :
  no_spore_record (find_all_games C (served KFindAllGames (calls w))) ->
  let r := install C custom_name log_callback w in
  result r = Ret false
  /\ calls (after r) = CallFindAllGames :: calls w
  /\ files (after r) = files w
  /\ progress_pcts (after r) = 5 :: 0 :: progress_pcts w
  /\ hd_error (progress_lines (after r))
       = Some "ERROR: Spore not found. Please install Spore first.".
Proof.
  intros Hnone r. subst r. apply no_spore_record_find in Hnone.
  unfold install, locate_and_prepare. mstep.
  match goal with |- context [find_spore_game C ?w0] =>
    destruct (find_spore_game_result C w0) as (Hr & Hf & Hc & Hp);
    destruct (find_spore_game C w0) as [w1 o] end.
  unfold result, after in *. cbn [fst snd] in *. autorewrite with world in *.
  rewrite Hnone in Hr. subst o. mstep. now rewrite Hf, Hc, Hp.
Qed.

(** C7 on a library that holds no Spore title. *)
Lemma install_without_game_witness :
  let r := install (Scenario.cooperative [mkGame "Skyrim" "/games/Skyrim" "steam"] 0)
             None true Scenario.empty_world in
  result r = Ret false /\ calls (after r) = [CallFindAllGames] /\ files (after r) = ∅.
Proof.
  destruct (install_without_game
              (Scenario.cooperative [mkGame "Skyrim" "/games/Skyrim" "steam"] 0)
              None true Scenario.empty_world) as (Hr & Hc & Hf & _).
  - intros g [<-|[]] (a & m & b & Hn & Hm).
    assert (Hs : is_spore (mkGame "Skyrim" "/games/Skyrim" "steam") = true).
    { apply is_spore_iff. now exists a, m, b. }
    vm_compute in Hs. discriminate.
  - repeat split; assumption.
Defined.


Section LogsGrow.
Context (C : Collaborators).

Ltac new_lines := eexists; new_items.

(** The download and the launch only add to the progress log. *)
Lemma download_modapi_installer_lines (w : World) :
  exists new, progress_lines (after (download_modapi_installer C w))
              = (new ++ progress_lines w)%list.
Proof.
  unfold download_modapi_installer. mstep.
  destruct (get_latest_release C _) as [[release|]|e]; mstep; [|new_lines..].
  destruct (find_asset_url (assets release)) as [[url asset]|];
    cbn [fmap option_fmap option_map fst truthy default];
    [rewrite bool_decide_true by eauto|rewrite bool_decide_false by (intros [? [=]])];
    mstep; [|new_lines].
  destruct (String.eqb url ""); mstep; [new_lines|].
  destruct (download_file C _ _ _ _) as [fx [[downloaded|]|e]];
    cbn [truthy default]; mstep; [|new_lines..].
  destruct (String.eqb downloaded ""); mstep; new_lines.
Qed.

Lemma launch_installer_lines (installer_exe prefix_path : Path) (spore_path : string)
    (w : World) :
  exists new,
    progress_lines (after (launch_installer_with_instructions C installer_exe prefix_path
                             spore_path w))
    = (new ++ progress_lines w)%list.
Proof.
  unfold launch_installer_with_instructions. mstep.
  destruct (get_active_proton_path C _) as [[proton_path|]|e]; mstep.
  - destruct (subprocess_Popen C _ _ _) as [[]|e]; mstep;
      [|destruct (exn_class e); mstep]; new_lines.
  - new_lines.
  - destruct (exn_class e); mstep; new_lines.
Qed.

End LogsGrow.

(** C3. A failed registry step does not halt the pipeline.  Once steps 1
    to 3 have passed, if [create_spore_registry] reports failure, the
    pipeline logs the warning and goes on from the world the failed step
    left to the download and the launch; if both succeed, [install]
    returns success after reporting progress 100. *)
Theorem install_survives_registry_failure (C : Collaborators)
    (custom_name : option string) (log_callback : bool) (w : World)
    (spore_path : string) (prefix_path installer_exe : Path) :
  let r0 := locate_and_prepare C custom_name w in
  let r1 := create_spore_registry C spore_path prefix_path (log_pct 40 (after r0)) in
  let r2 := download_modapi_installer C (log_pct 50 (log_line registry_warning (after r1))) in
  let r3 := launch_installer_with_instructions C installer_exe prefix_path spore_path
              (log_pct 60 (after r2)) in
  result r0 = Ret (Some (spore_path, prefix_path)) ->
  result r1 = Ret false ->
  result r2 = Ret (Some installer_exe) ->
  result r3 = Ret true ->
  let r := install C custom_name log_callback w in
  result r = Ret true
  /\ In registry_warning (progress_lines (after r))
  /\ hd_error (progress_pcts (after r)) = Some 100
  /\ calls (after r) = calls (after r3)
  /\ files (after r) = files (after r3).
Proof.
  intros r0 r1 r2 r3 H0 H1 H2 H3 r. subst r r3 r2 r1 r0.
  unfold install, install_guest. mstep.
  destruct (locate_and_prepare C custom_name w) as [w0 o0].
  unfold result, after in *. cbn [fst snd] in *. subst o0. mstep.
  destruct (create_spore_registry C spore_path prefix_path (log_pct 40 w0)) as [w1 o1].
  cbn [fst snd] in *. subst o1. mstep. fold registry_warning.
  destruct (download_modapi_installer_lines C (log_pct 50 (log_line registry_warning w1)))
    as [new2 Hl2].
  destruct (download_modapi_installer C _) as [w2 o2].
  unfold after in *. cbn [fst snd] in *. subst o2. mstep.
  destruct (launch_installer_lines C installer_exe prefix_path spore_path (log_pct 60 w2))
    as [new3 Hl3].
  destruct (launch_installer_with_instructions C installer_exe prefix_path spore_path _)
    as [w3 o3].
  unfold after in *. cbn [fst snd] in *. subst o3. mstep.
  repeat split; try reflexivity.
  do 4 right. rewrite Hl3. apply in_or_app. right.
  autorewrite with world. rewrite Hl2. apply in_or_app. right.
  autorewrite with world. now left.
Qed.

(** C3 on a runtime whose [regedit] exits with code 1. *)
Lemma install_survives_registry_failure_witness :
  let r := install (Scenario.cooperative Scenario.games 1) None true Scenario.empty_world in
  result r = Ret true /\ In registry_warning (progress_lines (after r)).
Proof.
  destruct (install_survives_registry_failure (Scenario.cooperative Scenario.games 1)
              None true Scenario.empty_world "/games/Spore" Scenario.prefix_path
              (Path_of "/home/user/.cache/ModAPI.InterimSetup.exe"))
    as (Hr & Hw & _); try (vm_compute; reflexivity).
  split; assumption.
Defined.

Section EnsureDependencies.
Context (C : Collaborators) (prefix_path : Path).

Notation marker := (marker_key prefix_path).

(** With the marker present the step is skipped: it probes the marker,
    logs, and does nothing else. *)
Lemma ensure_dependencies_skips (w : World) :
  is_Some (files w !! marker) ->
  ensure_dependencies C prefix_path w
  = (log_line "Dependencies already installed, skipping..." (add_call (FsExists marker) w),
     Ret true).
Proof.
  intros H. unfold ensure_dependencies. mstep.
  now rewrite bool_decide_true by exact H.
Qed.

(** With the marker absent and the delegate reporting success, the marker
    is touched right after the delegate's call. *)
Lemma ensure_dependencies_installs (w : World) (proton_path : Path) (fx : Effect)
    (res : DepResult) :
  let args := dependency_args proton_path prefix_path
                (steam_client_path_of (get_steam_root C (served KGetSteamRoot (calls w)))) in
  files w !! marker = None ->
  get_active_proton_path C (served KGetActiveProtonPath (calls w)) = Ret (Some proton_path) ->
  SteamUtils C (served KSteamUtils (calls w)) = Ret tt ->
  _install_dependencies_unified C (served KInstallDependencies (calls w)) args = (fx, Ret res) ->
  success res = true ->
  let r := ensure_dependencies C prefix_path w in
  result r = Ret true
  /\ calls (after r) =
       FsTouch marker :: CallInstallDependencies args :: CallGetSteamRoot :: CallSteamUtils
         :: CallGetActiveProtonPath :: FsExists marker :: calls w
  /\ is_Some (files (after r) !! marker).
Proof.
  intros args Hm Hp Hs Hd Hok r. subst r args.
  unfold ensure_dependencies. mstep. fold marker.
  rewrite bool_decide_false by (rewrite Hm; now intros [? ?]).
  mstep. rewrite Hp. mstep. rewrite Hs. mstep.
  destruct (get_steam_root C _) as [steam|e]; cbn [steam_client_path_of] in Hd; mstep;
    rewrite Hd; mstep; rewrite Hok; mstep; fold marker;
    (destruct (fx (files w) !! marker) eqn:E; mstep;
     repeat split; [now rewrite E | now rewrite lookup_insert_eq]).
Qed.

(** The step touches the marker only after a call in which the delegate
    reported success. *)
Lemma ensure_dependencies_touch_after_success (w : World) (new : list Call) :
  calls (after (ensure_dependencies C prefix_path w)) = (new ++ calls w)%list ->
  In (FsTouch marker) new ->
  exists args fx res rest,
    _install_dependencies_unified C (served KInstallDependencies (calls w)) args = (fx, Ret res)
    /\ success res = true
    /\ new = FsTouch marker :: CallInstallDependencies args :: rest.
Proof.
  unfold ensure_dependencies. mstep. fold marker.
  assert (Hsplit : forall (pre : list Call),
            (pre ++ calls w = new ++ calls w)%list -> pre = new)
    by (intros pre H; now apply app_inv_tail in H).
  destruct (bool_decide _); mstep.
  { intros H Hin. rewrite <- (Hsplit [_] H) in Hin.
    destruct Hin as [Hin|[]]; discriminate. }
  destruct (get_active_proton_path C _) as [[proton_path|]|e]; mstep.
  2, 3: intros H Hin; rewrite <- (Hsplit [_; _] H) in Hin;
        destruct Hin as [Hin|[Hin|[]]]; discriminate.
  destruct (SteamUtils C _) as [[]|e]; mstep.
  2: { intros H Hin. rewrite <- (Hsplit [_; _; _] H) in Hin.
       destruct Hin as [Hin|[Hin|[Hin|[]]]]; discriminate. }
  destruct (get_steam_root C _) as [steam|e]; mstep;
    (destruct (_install_dependencies_unified C _ _) as [fx [res|e']] eqn:Hd; mstep;
     [destruct (success res) eqn:Hok; mstep|]);
    intros H Hin.
  all: try (rewrite <- (Hsplit [_; _; _; _; _] H) in Hin;
            destruct Hin as [Hin|[Hin|[Hin|[Hin|[Hin|[]]]]]]; discriminate).
  all: fold marker in H;
    assert (Hc : forall l, calls (match fx (files w) !! marker with
                                   | Some _ => l
                                   | None => set_files (<[marker:=File "" default_mode]>
                                                          (files l)) l
                                   end) = calls l)
      by (intros l; now destruct (fx (files w) !! marker));
    try rewrite Hc in H; autorewrite with world in H;
    rewrite <- (Hsplit [_; _; _; _; _; _] H); eauto 10.
Qed.

End EnsureDependencies.

(** C2. Run twice in sequence on a sandbox without the marker, with the
    first delegate call succeeding, the dependency step invokes the
    delegate exactly once: the second run only probes the marker and is
    skipped.  Whenever the marker exists the step is skipped entirely, and
    the step touches the marker only right after a delegate call that
    reported success. *)
Theorem ensure_dependencies_idempotent (C : Collaborators) (prefix_path : Path) :
  let marker := marker_key prefix_path in
  (forall (w : World) (proton_path : Path) (fx : Effect) (res : DepResult),
     let args := dependency_args proton_path prefix_path
                   (steam_client_path_of
                      (get_steam_root C (served KGetSteamRoot (calls w)))) in
     files w !! marker = None ->
     get_active_proton_path C (served KGetActiveProtonPath (calls w))
       = Ret (Some proton_path) ->
     SteamUtils C (served KSteamUtils (calls w)) = Ret tt ->
     _install_dependencies_unified C (served KInstallDependencies (calls w)) args
       = (fx, Ret res) ->
     success res = true ->
     let r1 := ensure_dependencies C prefix_path w in
     let r2 := ensure_dependencies C prefix_path (after r1) in
     result r1 = Ret true /\ result r2 = Ret true
     /\ served KInstallDependencies (calls (after r2))
          = S (served KInstallDependencies (calls w))
     /\ (exists rest,
           calls (after r1) = FsTouch marker :: CallInstallDependencies args :: rest)
     /\ is_Some (files (after r1) !! marker)
     /\ calls (after r2) = FsExists marker :: calls (after r1)
     /\ files (after r2) = files (after r1))
  /\ (forall w : World,
        is_Some (files w !! marker) ->
        ensure_dependencies C prefix_path w
        = (log_line "Dependencies already installed, skipping..."
             (add_call (FsExists marker) w), Ret true))
  /\ (forall (w : World) (new : list Call),
        calls (after (ensure_dependencies C prefix_path w)) = (new ++ calls w)%list ->
        In (FsTouch marker) new ->
        exists args fx res rest,
          _install_dependencies_unified C (served KInstallDependencies (calls w)) args
            = (fx, Ret res)
          /\ success res = true
          /\ new = FsTouch marker :: CallInstallDependencies args :: rest).
Proof.
  intros marker. split; [|split].
  - intros w proton_path fx res args Hm Hp Hs Hd Hok r1 r2.
    destruct (ensure_dependencies_installs C prefix_path w proton_path fx res
                Hm Hp Hs Hd Hok) as (Hr1 & Hc1 & Hf1).
    fold r1 in Hr1, Hc1, Hf1. fold marker args in Hc1. fold marker in Hf1.
    assert (H2 := ensure_dependencies_skips C prefix_path (after r1) Hf1).
    fold r2 marker in H2.
    repeat split.
    + exact Hr1.
    + now rewrite H2.
    + rewrite H2. unfold after at 1. cbn [fst]. autorewrite with world.
      rewrite Hc1. reflexivity.
    + eexists. exact Hc1.
    + exact Hf1.
    + now rewrite H2.
    + now rewrite H2.
  - apply ensure_dependencies_skips.
  - apply ensure_dependencies_touch_after_success.
Qed.

(** C2 on a fresh sandbox with cooperative collaborators: two runs, one
    delegate call. *)
Lemma ensure_dependencies_idempotent_witness :
  let r1 := ensure_dependencies (Scenario.cooperative Scenario.games 0)
              Scenario.prefix_path Scenario.empty_world in
  let r2 := ensure_dependencies (Scenario.cooperative Scenario.games 0)
              Scenario.prefix_path (after r1) in
  result r2 = Ret true /\ served KInstallDependencies (calls (after r2)) = 1.
Proof.
  destruct (ensure_dependencies_idempotent (Scenario.cooperative Scenario.games 0)
              Scenario.prefix_path) as (H & _).
  destruct (H Scenario.empty_world (Path_of "/opt/GE-Proton9/proton") id
              (mkDepResult true "")) as (_ & Hr2 & Hn & _);
    try reflexivity.
  split; assumption.
Defined.

(** ** Launch Script Generator *)

Section PathFacts.
Import Str StrFacts.

Lemma concat_snoc (sep : string) (l : list string) (x : string) :
  l <> [] -> String.concat sep (l ++ [x]) = String.concat sep l +:+ sep +:+ x.
Proof.
  induction l as [|a l IH]; [congruence|]. intros _.
  destruct l as [|b l]; [reflexivity|].
  change (String.concat sep ((a :: b :: l) ++ [x]))
    with (a +:+ sep +:+ String.concat sep ((b :: l) ++ [x])).
  rewrite IH by discriminate.
  change (String.concat sep (a :: b :: l)) with (a +:+ sep +:+ String.concat sep (b :: l)).
  now rewrite !append_assoc.
Qed.

Lemma Path_of_component (name : string) :
  has_char slash name = false -> is_component name = true ->
  Path_of name = {| anchor := ""; parts := [name] |}.
Proof.
  intros Hs Hc. unfold Path_of. rewrite (split_on_clean slash name Hs).
  cbn [List.filter]. rewrite Hc.
  destruct name as [|c name]; [discriminate|].
  cbn [has_char] in Hs. apply orb_false_iff in Hs as [Hs _].
  cbn [String.prefix]. destruct (ascii_dec "/" c) as [<-|]; [|reflexivity].
  discriminate.
Qed.

Lemma path_str_truediv (p : Path) (name : string) :
  has_char slash name = false -> is_component name = true ->
  path_str (p // name) = dir_prefix p +:+ name.
Proof.
  intros Hs Hc. unfold truediv. rewrite (Path_of_component name Hs Hc).
  cbn [anchor parts String.eqb]. unfold path_str, dir_prefix. cbn [anchor parts].
  destruct (parts p) as [|a l]; [reflexivity|].
  change ((a :: l) ++ [name])%list with (a :: (l ++ [name]))%list.
  change (a :: (l ++ [name]))%list with ((a :: l) ++ [name])%list.
  rewrite concat_snoc by discriminate.
  destruct ((a :: l) ++ [name])%list eqn:E; [discriminate|].
  now rewrite !append_assoc.
Qed.

Lemma last_char_app (a s : string) : s <> "" -> last_char (a +:+ s) = last_char s.
Proof.
  intros Hs. induction a as [|c a IH]; [reflexivity|].
  change (String c a +:+ s) with (String c (a +:+ s)). cbn [last_char].
  destruct (a +:+ s) eqn:E; [|assumption].
  destruct a; [now subst | discriminate].
Qed.

Lemma append_inj_l (a x y : string) : a +:+ x = a +:+ y -> x = y.
Proof.
  induction a as [|c a IH]; [trivial|]. intros H. injection H as H. now apply IH.
Qed.

(** A script never lands on an executable, and two scripts never on one
    another, wherever the two directories are. *)
Lemma script_not_executable (out dir : Path) (exe script exe' script' : string) :
  In (exe, script) executables -> In (exe', script') executables ->
  script_key out (exe, script) <> path_str (dir // exe').
Proof.
  unfold script_key. cbn [snd]. intros H1 H2 E.
  assert (L : last_char (path_str (out // script)) = Some "h"%char
              /\ last_char (path_str (dir // exe')) = Some "e"%char).
  { cbn [executables In] in H1, H2.
    destruct H1 as [H1|[H1|[H1|[]]]]; injection H1 as <- <-;
    destruct H2 as [H2|[H2|[H2|[]]]]; injection H2 as <- <-;
    rewrite !path_str_truediv by reflexivity;
    rewrite !last_char_app by discriminate; split; reflexivity. }
  destruct L as [L1 L2]. rewrite E, L2 in L1. discriminate.
Qed.

Lemma scripts_distinct (out : Path) :
  List.NoDup (List.map (script_key out) executables).
Proof.
  unfold script_key. cbn [executables List.map snd]. rewrite !path_str_truediv by reflexivity.
  assert (Hne : forall a x y l, x <> y -> ~ In (a +:+ x) l -> ~ In (a +:+ x) ((a +:+ y) :: l)).
  { intros a x y l Hxy Hl [H|H]; [apply append_inj_l in H; congruence | tauto]. }
  apply List.NoDup_cons; [apply Hne; [discriminate|]; apply Hne; [discriminate|]; tauto|].
  apply List.NoDup_cons; [apply Hne; [discriminate|]; tauto|].
  apply List.NoDup_cons; [tauto|]. apply List.NoDup_nil.
Qed.

End PathFacts.

Section ScriptLoop.
Context (C : Collaborators) (out prefix_path dir ge : Path).

Notation script_key := (script_key out).

Lemma written_paths_app (a b : list Call) :
  written_paths (a ++ b) = (written_paths a ++ written_paths b)%list.
Proof. apply flat_map_app. Qed.

Lemma skip_warnings_app (a b : list string) :
  skip_warnings (a ++ b) = (skip_warnings a ++ skip_warnings b)%list.
Proof. apply List.filter_app. Qed.

Lemma skip_warning_is_skip (entry : string * string) :
  In entry executables -> is_skip_warning (skip_warning entry.1) = true.
Proof.
  intros H. apply existsb_exists. exists entry. split; [assumption|].
  apply String.eqb_refl.
Qed.

Lemma created_is_not_skip (script : string) :
  is_skip_warning ("Created: " +:+ script) = false.
Proof. reflexivity. Qed.

(** Resolving the Steam path never raises, writes nothing and logs
    nothing. *)
Lemma steam_path_or_spec (fallback : string) (w : World) :
  exists w' steam new,
    steam_path_or C fallback w = (w', Ret steam)
    /\ files w' = files w
    /\ progress_lines w' = progress_lines w
    /\ calls w' = (new ++ calls w)%list
    /\ written_paths new = []
    /\ served KGetActiveProtonPath new = 0.
Proof.
  unfold steam_path_or. mstep.
  destruct (SteamUtils C _) as [[]|e]; mstep.
  - destruct (get_steam_root C _) as [steam|e]; mstep.
    + now exists (add_call CallGetSteamRoot (add_call CallSteamUtils w)), steam,
        [CallGetSteamRoot; CallSteamUtils].
    + now exists (add_call CallGetSteamRoot (add_call CallSteamUtils w)), fallback,
        [CallGetSteamRoot; CallSteamUtils].
  - now exists (add_call CallSteamUtils w), fallback, [CallSteamUtils].
Qed.

Lemma create_scripts_loop_spec (todo : list (string * string)) :
  forall (created : list string) (w : World),
  (forall e, In e todo -> In e executables) ->
  (forall e e', In e todo -> In e' todo -> script_key e <> path_str (dir // e'.1)) ->
  List.NoDup (List.map script_key todo) ->
  let present := List.filter (exe_present (files w) dir) todo in
  let absent := List.filter (fun e => negb (exe_present (files w) dir e)) todo in
  exists w',
    create_scripts_loop C todo out prefix_path dir ge created w
      = (w', Ret (created ++ List.map snd present)%list)
    /\ (exists new, calls w' = (new ++ calls w)%list
                    /\ written_paths new = rev (List.map script_key present))
    /\ (exists lines, progress_lines w' = (lines ++ progress_lines w)%list
                      /\ skip_warnings lines
                         = rev (List.map (fun e => skip_warning e.1) absent))
    /\ (forall e, In e present ->
          exists steam,
            files w' !! script_key e
            = Some (File (script_text prefix_path dir ge e.1 steam) mode_755))
    /\ (forall k, (forall e, In e present -> k <> script_key e) ->
          files w' !! k = files w !! k).
Proof.
  induction todo as [|[exe script] rest IH];
    intros created w Hall Hdisj Hnodup present absent.
  - subst present absent. cbn [create_scripts_loop List.filter List.map]. mstep.
    exists w. rewrite app_nil_r. repeat split.
    + now exists [].
    + now exists [].
    + intros e [].
  - cbn [create_scripts_loop]. mstep.
    change (bool_decide (is_Some (files w !! path_str (dir // exe))))
      with (exe_present (files w) dir (exe, script)).
    subst present absent. cbn [List.filter].
    inversion Hnodup as [|? ? Hhead Hrest]; subst.
    assert (Hdisj' : forall e e', In e rest -> In e' rest ->
                       script_key e <> path_str (dir // e'.1))
      by (intros e e' He He'; apply Hdisj; now right).
    assert (Hall' : forall e, In e rest -> In e executables)
      by (intros e He; apply Hall; now right).
    destruct (exe_present (files w) dir (exe, script)) eqn:Hp; cbn [negb]; mstep.
    + (* the executable is there: a script is written *)
      destruct (steam_path_or_spec "$HOME/.steam/steam"
                  (add_call (FsExists (path_str (dir // exe))) w))
        as (w1 & steam & new1 & -> & Hf1 & Hl1 & Hc1 & Hw1 & _).
      mstep. rewrite Hf1. autorewrite with world.
      rewrite lookup_insert_eq. mstep. rewrite insert_insert_eq.
      fold (script_text prefix_path dir ge exe steam).
      fold (script_key (exe, script)).
      set (fs' := <[script_key (exe, script) :=
                      File (script_text prefix_path dir ge exe steam) mode_755]> (files w)).
      match goal with |- context [create_scripts_loop C rest _ _ _ _ _ ?w0] =>
        set (w2 := w0) end.
      assert (Hfs2 : files w2 = fs') by (subst w2; now autorewrite with world).
      assert (Hsame : forall e, In e rest ->
                exe_present (files w2) dir e = exe_present (files w) dir e).
      { intros e He. unfold exe_present. rewrite Hfs2. subst fs'.
        rewrite lookup_insert_ne; [reflexivity|].
        apply Hdisj; [now left | now right]. }
      destruct (IH (created ++ [script])%list w2 Hall' Hdisj' Hrest)
        as (w' & Hrun & (new & Hc & Hw) & (lines & Hl & Hs) & Hfiles & Hframe).
      rewrite (List.filter_ext_in _ _ rest Hsame) in Hrun, Hw, Hfiles, Hframe.
      rewrite (List.filter_ext_in (fun e => negb (exe_present (files w2) dir e))
                 (fun e => negb (exe_present (files w) dir e)) rest) in Hs
        by (intros e He; now rewrite Hsame).
      exists w'. rewrite Hrun. rewrite <- app_assoc. repeat split.
      * exists (new ++ FsChmod (script_key (exe, script)) mode_755
                   :: FsWriteText (script_key (exe, script))
                        (script_text prefix_path dir ge exe steam)
                   :: new1 ++ [FsExists (path_str (dir // exe))])%list.
        split.
        -- rewrite Hc. subst w2. autorewrite with world. rewrite Hc1.
           autorewrite with world.
           repeat (rewrite <- app_assoc || rewrite <- app_comm_cons). reflexivity.
        -- rewrite written_paths_app. cbn [written_paths flat_map].
           rewrite flat_map_app. fold (written_paths new) (written_paths new1).
           rewrite Hw, Hw1. reflexivity.
      * exists (lines ++ ["Created: " +:+ script])%list. split.
        -- rewrite Hl. subst w2. autorewrite with world. rewrite Hl1.
           autorewrite with world. now rewrite <- app_assoc.
        -- rewrite skip_warnings_app, Hs. cbn [skip_warnings List.filter].
           rewrite created_is_not_skip. now rewrite app_nil_r.
      * intros e [<-|He].
        -- exists steam. rewrite Hframe.
           ++ rewrite Hfs2. subst fs'. apply lookup_insert_eq.
           ++ intros e He Heq. apply Hhead. rewrite Heq.
              apply in_map. now apply List.filter_In in He as [He _].
        -- now apply Hfiles.
      * intros k Hk. rewrite Hframe.
        -- rewrite Hfs2. subst fs'. apply lookup_insert_ne.
           intros Heq. apply (Hk (exe, script)); [now left | now rewrite Heq].
        -- intros e He. apply Hk. now right.
    + (* the executable is missing: a warning, no script *)
      match goal with |- context [create_scripts_loop C rest _ _ _ _ _ ?w0] =>
        set (w2 := w0) end.
      destruct (IH created w2 Hall' Hdisj' Hrest)
        as (w' & Hrun & (new & Hc & Hw) & (lines & Hl & Hs) & Hfiles & Hframe).
      subst w2. autorewrite with world in *.
      exists w'. rewrite Hrun. repeat split.
      * exists (new ++ [FsExists (path_str (dir // exe))])%list. split.
        -- now rewrite Hc, <- app_assoc.
        -- rewrite written_paths_app, Hw. cbn. now rewrite app_nil_r.
      * exists (lines ++ [skip_warning exe])%list. split.
        -- now rewrite Hl, <- app_assoc.
        -- rewrite skip_warnings_app, Hs. cbn [skip_warnings List.filter].
           assert (Hskip := skip_warning_is_skip (exe, script)
                               (Hall _ (or_introl eq_refl))).
           cbn [fst] in Hskip. rewrite Hskip. reflexivity.
      * exact Hfiles.
      * exact Hframe.
Qed.

End ScriptLoop.

Section GenerateScripts.
Context (C : Collaborators) (out prefix_path : Path).

Notation script_key := (script_key out).

Ltac norm_app :=
  repeat (rewrite <- app_assoc || rewrite <- app_comm_cons); cbn [app].

Lemma served_app (k : CallKind) (a b : list Call) :
  served k (a ++ b) = served k a + served k b.
Proof. induction a as [|c a IH]; [reflexivity|]. cbn [served app]. rewrite IH. lia. Qed.

(** Finding the install root writes nothing, warns of no skip and leaves
    the runtime manager alone. *)
Lemma locate_step (modapi_install_dir : option Path) (w : World) :
  exists w' new lines,
    match modapi_install_dir return M (option Path) with
    | Some d => fun w0 => (w0, Ret (Some d))
    | None => find_modapi_installation prefix_path
    end w = (w', Ret (located_install (files w) prefix_path modapi_install_dir))
    /\ files w' = files w
    /\ calls w' = (new ++ calls w)%list
    /\ written_paths new = []
    /\ served KGetActiveProtonPath new = 0
    /\ progress_lines w' = (lines ++ progress_lines w)%list
    /\ skip_warnings lines = [].
Proof.
  destruct modapi_install_dir as [d|]; cbn [located_install].
  - exists w, [], []. now mstep.
  - unfold find_modapi_installation, candidates. cbn [List.find]. unfold has_marker.
    mstep.
    destruct (bool_decide (is_Some (files w !! path_str (default_path prefix_path // _))));
      mstep.
    { eexists _, [_], [_; _]. repeat split; reflexivity. }
    destruct (bool_decide (is_Some (files w !! path_str (alt_path1 prefix_path // _))));
      mstep.
    { eexists _, [_; _], [_; _]. repeat split; reflexivity. }
    destruct (bool_decide (is_Some (files w !! path_str (alt_path2 prefix_path // _))));
      mstep.
    { eexists _, [_; _; _], [_; _]. repeat split; reflexivity. }
    eexists _, [_; _; _], [_; _]. repeat split; reflexivity.
Qed.

Lemma create_launch_scripts_spec (modapi_install_dir : option Path) (w : World) :
  let r := create_launch_scripts C out prefix_path modapi_install_dir w in
  exists new lines,
    calls (after r) = (new ++ calls w)%list
    /\ progress_lines (after r) = (lines ++ progress_lines w)%list
    /\ (result r = Ret true \/ result r = Ret false)
    /\ (result r = Ret true <-> written_paths new <> [])
    /\ forall dir proton_path,
         located_install (files w) prefix_path modapi_install_dir = Some dir ->
         get_active_proton_path C (served KGetActiveProtonPath (calls w))
           = Ret (Some proton_path) ->
         let present := List.filter (exe_present (files w) dir) executables in
         let absent := List.filter (fun e => negb (exe_present (files w) dir e)) executables in
         written_paths new = rev (List.map script_key present)
         /\ skip_warnings lines = rev (List.map (fun e => skip_warning e.1) absent)
         /\ (forall e, In e present ->
               exists steam,
                 files (after r) !! script_key e
                 = Some (File (script_text prefix_path dir (parent proton_path) e.1 steam)
                              mode_755))
         /\ (forall k, (forall e, In e present -> k <> script_key e) ->
               files (after r) !! k = files w !! k).
Proof.
  intros r. subst r. unfold create_launch_scripts. mstep.
  destruct (locate_step modapi_install_dir (log_line "Creating launch scripts..." w))
    as (w1 & new1 & lines1 & -> & Hf1 & Hc1 & Hw1 & Hs1 & Hl1 & Hk1).
  autorewrite with world in *. mstep.
  destruct (located_install (files w) prefix_path modapi_install_dir) as [dir|]; mstep.
  2: { exists new1, ("ERROR: Could not find ModAPI installation" :: lines1
                      ++ ["Creating launch scripts..."])%list.
       rewrite Hc1, Hl1, Hw1. norm_app.
       repeat split; try reflexivity; try discriminate; try tauto;
         try (now right). }
  rewrite Hc1, served_app, Hs1. cbn [Nat.add].
  destruct (get_active_proton_path C (served KGetActiveProtonPath (calls w)))
    as [[proton_path|]|e]; mstep.
  2, 3: exists (CallGetActiveProtonPath :: new1), (lines1 ++ ["Creating launch scripts..."])%list;
        rewrite Hc1, Hl1; norm_app; cbn [written_paths flat_map app];
        fold (written_paths new1); rewrite Hw1;
        repeat split; try reflexivity; try discriminate; try tauto; try (now right).
  destruct (create_scripts_loop_spec C out prefix_path dir (parent proton_path)
              executables [] (add_call CallGetActiveProtonPath w1))
    as (w2 & Hrun & (new2 & Hc2 & Hw2) & (lines2 & Hl2 & Hs2) & Hfiles & Hframe).
  { trivial. }
  { intros [exe script] [exe' script'] He He'. cbn [fst snd].
    eapply script_not_executable; eassumption. }
  { apply scripts_distinct. }
  rewrite Hrun. autorewrite with world in *. rewrite Hf1 in *.
  cbn [app] in *. fold script_key in Hw2, Hfiles, Hframe.
  remember (List.filter (exe_present (files w) dir) executables) as present eqn:Hpresent.
  assert (Hcalls : calls w2 = ((new2 ++ CallGetActiveProtonPath :: new1) ++ calls w)%list)
    by (rewrite Hc2, Hc1; norm_app; reflexivity).
  assert (Hlines : forall l, l :: progress_lines w2
            = ((l :: lines2 ++ lines1 ++ ["Creating launch scripts..."]) ++ progress_lines w)%list)
    by (intros l; rewrite Hl2, Hl1; norm_app; reflexivity).
  assert (Hwritten : written_paths (new2 ++ CallGetActiveProtonPath :: new1)
                     = rev (List.map script_key present)).
  { rewrite written_paths_app. cbn [written_paths flat_map app].
    fold (written_paths new1) (written_paths new2). rewrite Hw1, Hw2.
    now rewrite app_nil_r. }
  assert (Hskips : forall l, is_skip_warning l = false ->
            skip_warnings (l :: lines2 ++ lines1 ++ ["Creating launch scripts..."])
            = rev (List.map (fun e => skip_warning e.1)
                     (List.filter (fun e => negb (exe_present (files w) dir e)) executables))).
  { intros l Hl. cbn [skip_warnings List.filter]. rewrite Hl.
    fold (skip_warnings (lines2 ++ lines1 ++ ["Creating launch scripts..."])).
    rewrite !skip_warnings_app, Hs2, Hk1. cbn. now rewrite app_nil_r. }
  destruct present as [|e0 present']; cbn [List.map app]; mstep.
  - eexists _, _. split; [exact Hcalls|]. split; [apply Hlines|].
    rewrite Hwritten. split; [now right|].
    split; [split; [discriminate | intros H; now contradiction H]|].
    intros dir' pp' [= <-] [= <-]. cbn zeta. rewrite <- Hpresent.
    split; [reflexivity|]. split; [now apply Hskips|].
    split; [exact Hfiles | exact Hframe].
  - eexists _, _. split; [exact Hcalls|]. split; [apply Hlines|].
    rewrite Hwritten. split; [now left|].
    split.
    { split; [|reflexivity]. intros _. cbn [List.map rev]. intros H.
      now apply app_eq_nil in H as [_ ?]. }
    intros dir' pp' [= <-] [= <-]. cbn zeta. rewrite <- Hpresent.
    split; [reflexivity|]. split; [now apply Hskips|].
    split; [exact Hfiles | exact Hframe].
Qed.

End GenerateScripts.



(** C10 on a library that lists Skyrim, then two Spore titles: the first
    of the two is returned, though its name is not "spore" itself. *)
Lemma find_spore_game_first_mention_witness :
  result (find_spore_game (Scenario.cooperative Scenario.games 0) Scenario.empty_world)
  = Ret (Some (mkGame "SPORE: Galactic Adventures" "/games/Spore" "steam")).
Proof.
  destruct (find_spore_game_first_mention (Scenario.cooperative Scenario.games 0)
              Scenario.empty_world) as (Hfirst & _).
  apply (Hfirst [mkGame "The Elder Scrolls V: Skyrim" "/games/Skyrim" "steam"]
           (mkGame "SPORE: Galactic Adventures" "/games/Spore" "steam")
           [mkGame "Spore" "/games/Spore0" "gog"]).
  - reflexivity.
  - intros g' [<-|[]] (a & m & b & Hn & Hm).
    assert (Hs : is_spore (mkGame "The Elder Scrolls V: Skyrim" "/games/Skyrim" "steam")
                 = true) by (apply is_spore_iff; now exists a, m, b).
    vm_compute in Hs. discriminate.
  - now exists "", "SPORE", ": Galactic Adventures".
Defined.

(** C6 on a host that defines a library search path of its own: the
    import is spawned with the fixed list. *)
Lemma spawned_guest_environment_witness :
  exists argv env,
    In (CallRun argv env 60)
       (calls (after (create_spore_registry (Scenario.cooperative Scenario.games 0)
                        "/games/Spore" Scenario.prefix_path
                        Scenario.host_with_library_path)))
    /\ env !! "WINEPREFIX" = Some "/home/user/NaK/Prefixes/spore_modloader/pfx"
    /\ env !! "LD_LIBRARY_PATH" = Some LD_LIBRARY_PATH_value
    /\ env !! "HOME" = Some "/home/user".
Proof.
  destruct (spawned_guest_environment (Scenario.cooperative Scenario.games 0)
              "/games/Spore" (Path_of "/unused") Scenario.prefix_path
              Scenario.host_with_library_path) as [(new & Hc & Henv) _].
  eexists _, _. split; [right; left; reflexivity|].
  assert (Hnew : forall c, In c (calls (after (create_spore_registry
                      (Scenario.cooperative Scenario.games 0) "/games/Spore"
                      Scenario.prefix_path Scenario.host_with_library_path))) -> In c new).
  { intros c Hin. rewrite Hc in Hin. apply in_app_or in Hin as [Hin|[]]. exact Hin. }
  destruct (Henv _ _ (Hnew _ (or_intror (or_introl eq_refl))) eq_refl) as (Hp & Hl & Ho).
  split; [exact Hp|]. split; [exact Hl|].
  rewrite Ho by discriminate. reflexivity.
Defined.

(** * Further properties *)

(** ** Path translation back and forth *)

Section TranslatorRoundTrip.
Import Str StrFacts.

Lemma replace_go_skip_one (old new : string) (c : ascii) (s : string) :
  replace_go old new 1 (String c s) = replace_go old new 0 s.
Proof. now destruct s. Qed.

Lemma host_of_display_tail (p : string) :
  has_char bs p = false ->
  replace (chr bs) "/" (replace (chr slash) "\" p) = p.
Proof.
  induction p as [|c p IH]; intros Hp; [reflexivity|].
  cbn [has_char] in Hp. apply orb_false_iff in Hp as [Hc Hp].
  rewrite replace_char_cons. destruct (Ascii.eqb slash c) eqn:Hs.
  - apply Ascii.eqb_eq in Hs as <-.
    change ("\" +:+ replace (chr slash) "\" p)
      with (String bs (replace (chr slash) "\" p)).
    rewrite replace_char_cons, Ascii.eqb_refl, IH by assumption. reflexivity.
  - rewrite replace_char_cons. destruct (Ascii.eqb bs c); [discriminate|].
    now rewrite IH.
Qed.

Lemma prefix_nil (s : string) : String.prefix "" s = true.
Proof. now destruct s. Qed.

Lemma unescape_hit (r : string) :
  replace "\\" "/" (String bs (String bs r)) = String "/" (replace "\\" "/" r).
Proof.
  unfold replace. cbn [replace_go].
  assert (H : String.prefix "\\" (String bs (String bs r)) = true).
  { cbn [String.prefix]. destruct (ascii_dec "\" bs) as [_|Hne]; [|now contradiction Hne].
    apply prefix_nil. }
  rewrite H. reflexivity.
Qed.

Lemma unescape_miss (c : ascii) (r : string) :
  Ascii.eqb bs c = false ->
  replace "\\" "/" (String c r) = String c (replace "\\" "/" r).
Proof.
  intros Hc. unfold replace. cbn [replace_go String.prefix].
  destruct (ascii_dec "\" c) as [<-|_]; [|reflexivity].
  now rewrite Ascii.eqb_refl in Hc.
Qed.

Lemma host_of_registry_tail (p : string) :
  has_char bs p = false ->
  replace "\\" "/" (replace (chr slash) "\\" p) = p.
Proof.
  induction p as [|c p IH]; intros Hp; [reflexivity|].
  cbn [has_char] in Hp. apply orb_false_iff in Hp as [Hc Hp].
  specialize (IH Hp). rewrite replace_char_cons.
  destruct (Ascii.eqb slash c) eqn:Hs.
  - apply Ascii.eqb_eq in Hs as <-.
    change ("\\" +:+ replace (chr slash) "\\" p)
      with (String bs (String bs (replace (chr slash) "\\" p))).
    now rewrite unescape_hit, IH.
  - rewrite unescape_miss, IH; [reflexivity|].
    now destruct (Ascii.eqb bs c).
Qed.

End TranslatorRoundTrip.

(** X1. The display form loses nothing: for a host path with no backslash
    of its own, dropping the drive prefix and turning the backslashes
    back into slashes gives the path again. *)
Theorem convert_to_wine_path_display_round_trip (p : string) :
  Str.has_char Str.bs p = false ->
  host_of_display (convert_to_wine_path_display p) = p.
Proof. intros Hp. now apply host_of_display_tail. Qed.

Lemma convert_to_wine_path_display_round_trip_witness :
  host_of_display (convert_to_wine_path_display "/home/user/My Games/Spore")
  = "/home/user/My Games/Spore".
Proof. apply convert_to_wine_path_display_round_trip. reflexivity. Defined.

(** X2. The registry form loses nothing either: dropping the escaped drive
    prefix and turning each escaped backslash back into a slash gives the
    path again, for a host path with no backslash of its own. *)
Theorem convert_to_wine_path_registry_round_trip (p : string) :
  Str.has_char Str.bs p = false ->
  host_of_registry (convert_to_wine_path_registry p) = p.
Proof. intros Hp. now apply host_of_registry_tail. Qed.

Lemma convert_to_wine_path_registry_round_trip_witness :
  host_of_registry (convert_to_wine_path_registry "/home/user/My Games/Spore")
  = "/home/user/My Games/Spore".
Proof. apply convert_to_wine_path_registry_round_trip. reflexivity. Defined.

(** X3. In registry mode no backslash is left unescaped: every run of
    backslashes has even length, for a host path with no backslash of its
    own. *)
Theorem convert_to_wine_path_registry_even_runs (p : string) :
  Str.has_char Str.bs p = false ->
  List.Forall Nat.Even (Str.runs Str.bs (convert_to_wine_path_registry p)).
Proof. apply convert_to_wine_path_registry_escaped. Qed.

Lemma convert_to_wine_path_registry_even_runs_witness :
  List.Forall Nat.Even (Str.runs Str.bs (convert_to_wine_path_registry "/home/user/Spore")).
Proof. apply convert_to_wine_path_registry_even_runs. reflexivity. Defined.

(** ** The steps, case by case *)

Section StepCases.
Context (C : Collaborators).

(** What [create_spore_registry] returns, leaves on disk and calls, by
    the answers it gets. *)
Lemma create_spore_registry_cases (spore_path : string) (prefix_path : Path) (w : World) :
  let r := create_spore_registry C spore_path prefix_path w in
  progress_pcts (after r) = progress_pcts w
  /\ environ (after r) = environ w
  /\ match NamedTemporaryFile C (served KNamedTemporaryFile (calls w)) ".reg" with
     | Raise _ =>
         result r = Ret false /\ files (after r) = files w
         /\ calls (after r) = CallNamedTemporaryFile ".reg" :: calls w
     | Ret reg_file =>
         let key := path_str (Path_of reg_file) in
         let doc := <[key := File (reg_content spore_path) tempfile_mode]> (files w) in
         match get_active_proton_path C (served KGetActiveProtonPath (calls w)) with
         | Ret (Some proton_path) =>
             let argv := [path_str (wine64_of proton_path); "regedit"; reg_file] in
             let env := guest_env (environ w) prefix_path in
             match subprocess_run C (served KRun (calls w)) argv env 60 with
             | (fx, Ret proc) =>
                 result r = Ret (Nat.eqb (returncode proc) 0)
                 /\ files (after r) = delete key (fx doc)
                 /\ calls (after r) =
                      FsUnlink key :: CallRun argv env 60 :: CallGetActiveProtonPath
                        :: CallNamedTemporaryFile ".reg" :: calls w
             | (fx, Raise _) =>
                 result r = Ret false /\ files (after r) = fx doc
                 /\ calls (after r) =
                      CallRun argv env 60 :: CallGetActiveProtonPath
                        :: CallNamedTemporaryFile ".reg" :: calls w
             end
         | _ =>
             result r = Ret false /\ files (after r) = doc
             /\ calls (after r) =
                  CallGetActiveProtonPath :: CallNamedTemporaryFile ".reg" :: calls w
         end
     end.
Proof.
  intros r. subst r. unfold create_spore_registry, write_temporary_file. mstep.
  destruct (NamedTemporaryFile C _ _) as [reg_file|e]; mstep; [|now repeat split].
  destruct (get_active_proton_path C _) as [[proton_path|]|e]; mstep;
    [|now repeat split..].
  destruct (subprocess_run C _ _ _ _) as [fx [proc|e]]; mstep; [|now repeat split].
  destruct (fx _ !! _) eqn:E; mstep; destruct (Nat.eqb _ _); mstep;
    repeat split; try reflexivity; symmetry; now apply delete_id.
Qed.

Lemma download_modapi_installer_cases (w : World) :
  let r := download_modapi_installer C w in
  progress_pcts (after r) = progress_pcts w
  /\ environ (after r) = environ w
  /\ match get_latest_release C (served KGetLatestRelease (calls w)) with
     | Ret (Some release) =>
         match chosen_url release with
         | Some url =>
             match download_file C (served KDownloadFile (calls w)) url installer_asset true with
             | (fx, answer) =>
                 result r = Ret (match answer with
                                 | Ret (Some file) =>
                                     if String.eqb file "" then None else Some (Path_of file)
                                 | _ => None
                                 end)
                 /\ files (after r) = fx (files w)
                 /\ calls (after r) =
                      CallDownloadFile url installer_asset true :: CallGetLatestRelease
                        :: calls w
             end
         | None =>
             result r = Ret None /\ files (after r) = files w
             /\ calls (after r) = CallGetLatestRelease :: calls w
         end
     | _ =>
         result r = Ret None /\ files (after r) = files w
         /\ calls (after r) = CallGetLatestRelease :: calls w
     end.
Proof.
  intros r. subst r. unfold download_modapi_installer, chosen_url. mstep.
  destruct (get_latest_release C _) as [[release|]|e]; mstep; [|now repeat split..].
  destruct (find_asset_url (assets release)) as [[url asset]|];
    cbn [fmap option_fmap option_map fst truthy default];
    [rewrite bool_decide_true by eauto|rewrite bool_decide_false by (intros [? [=]])];
    mstep; [|now repeat split].
  destruct (String.eqb url ""); mstep; [now repeat split|].
  destruct (download_file C _ _ _ _) as [fx [[file|]|e]];
    cbn [truthy default]; mstep; [|now repeat split..].
  destruct (String.eqb file ""); mstep; now repeat split.
Qed.

Lemma launch_installer_cases (installer_exe prefix_path : Path) (spore_path : string)
    (w : World) :
  let r := launch_installer_with_instructions C installer_exe prefix_path spore_path w in
  progress_pcts (after r) = progress_pcts w
  /\ environ (after r) = environ w
  /\ files (after r) = files w
  /\ match get_active_proton_path C (served KGetActiveProtonPath (calls w)) with
     | Ret (Some proton_path) =>
         let argv := [path_str (wine64_of proton_path); path_str installer_exe] in
         let env := guest_env (environ w) prefix_path in
         result r = Ret (match subprocess_Popen C (served KPopen (calls w)) argv env with
                         | Ret _ => true
                         | Raise e => match exn_class e with
                                      | TimeoutExpired => true
                                      | _ => false
                                      end
                         end)
         /\ calls (after r) = CallPopen argv env :: CallGetActiveProtonPath :: calls w
     | Ret None =>
         result r = Ret false /\ calls (after r) = CallGetActiveProtonPath :: calls w
     | Raise e =>
         result r = Ret (match exn_class e with TimeoutExpired => true | _ => false end)
         /\ calls (after r) = CallGetActiveProtonPath :: calls w
     end.
Proof.
  intros r. subst r. unfold launch_installer_with_instructions. mstep.
  destruct (get_active_proton_path C _) as [[proton_path|]|e]; mstep.
  - destruct (subprocess_Popen C _ _ _) as [[]|e]; mstep;
      [|destruct (exn_class e); mstep]; now repeat split.
  - now repeat split.
  - destruct (exn_class e); mstep; now repeat split.
Qed.

End StepCases.

Section DependencyCases.
Context (C : Collaborators) (prefix_path : Path).

Notation marker := (marker_key prefix_path).

(** What the dependency step returns, leaves on disk and calls, by the
    answers it gets, when the marker is absent. *)
Lemma ensure_dependencies_cases (w : World) :
  files w !! marker = None ->
  let r := ensure_dependencies C prefix_path w in
  progress_pcts (after r) = progress_pcts w
  /\ environ (after r) = environ w
  /\ match get_active_proton_path C (served KGetActiveProtonPath (calls w)) with
     | Ret (Some proton_path) =>
         match SteamUtils C (served KSteamUtils (calls w)) with
         | Ret _ =>
             let args := dependency_args proton_path prefix_path
                           (steam_client_path_of
                              (get_steam_root C (served KGetSteamRoot (calls w)))) in
             let before := CallInstallDependencies args :: CallGetSteamRoot :: CallSteamUtils
                             :: CallGetActiveProtonPath :: FsExists marker :: calls w in
             match _install_dependencies_unified C (served KInstallDependencies (calls w))
                     args with
             | (fx, Ret res) =>
                 if success res then
                   result r = Ret true
                   /\ calls (after r) = FsTouch marker :: before
                   /\ files (after r) = match fx (files w) !! marker with
                                        | Some _ => fx (files w)
                                        | None => <[marker := File "" default_mode]>
                                                    (fx (files w))
                                        end
                 else
                   result r = Ret false /\ calls (after r) = before
                   /\ files (after r) = fx (files w)
                   /\ hd_error (progress_lines (after r))
                      = Some ("ERROR: Failed to install dependencies: " +:+ error res)
             | (fx, Raise e) =>
                 result r = Raise e /\ calls (after r) = before
                 /\ files (after r) = fx (files w)
             end
         | Raise e =>
             result r = Raise e /\ files (after r) = files w
             /\ calls (after r) =
                  CallSteamUtils :: CallGetActiveProtonPath :: FsExists marker :: calls w
         end
     | Ret None =>
         result r = Ret false /\ files (after r) = files w
         /\ calls (after r) = CallGetActiveProtonPath :: FsExists marker :: calls w
     | Raise e =>
         result r = Raise e /\ files (after r) = files w
         /\ calls (after r) = CallGetActiveProtonPath :: FsExists marker :: calls w
     end.
Proof.
  intros Hm r. subst r. unfold ensure_dependencies. mstep. fold marker.
  rewrite bool_decide_false by (rewrite Hm; now intros [? ?]). mstep.
  destruct (get_active_proton_path C _) as [[proton_path|]|e]; mstep;
    [|now repeat split..].
  destruct (SteamUtils C _) as [[]|e]; mstep; [|now repeat split].
  destruct (get_steam_root C _) as [steam|e]; cbn [steam_client_path_of]; mstep;
    (destruct (_install_dependencies_unified C _ _) as [fx [res|e']]; mstep;
     [|now repeat split];
     destruct (success res); mstep; fold marker; [|now repeat split];
     destruct (fx (files w) !! marker); mstep; now repeat split).
Qed.

Lemma ensure_dependencies_pcts (w : World) :
  progress_pcts (after (ensure_dependencies C prefix_path w)) = progress_pcts w.
Proof.
  destruct (files w !! marker) eqn:Hm.
  - rewrite ensure_dependencies_skips by (fold marker; rewrite Hm; eauto). now mstep.
  - now destruct (ensure_dependencies_cases w Hm) as (H & _).
Qed.

End DependencyCases.

(** ** Registry import: outcomes *)


(** X5. Without an active runtime [create_spore_registry] returns [False]
    before it spawns anything, and before its cleanup: the temporary
    document it has just written is left on disk. *)
Theorem create_spore_registry_without_runtime (C : Collaborators) (spore_path : string)
    (prefix_path : Path) (w : World) (reg_file : string) :
  NamedTemporaryFile C (served KNamedTemporaryFile (calls w)) ".reg" = Ret reg_file ->
  get_active_proton_path C (served KGetActiveProtonPath (calls w)) = Ret None ->
  let r := create_spore_registry C spore_path prefix_path w in
  result r = Ret false
  /\ calls (after r) = CallGetActiveProtonPath :: CallNamedTemporaryFile ".reg" :: calls w
  /\ files (after r) !! path_str (Path_of reg_file)
     = Some (File (reg_content spore_path) tempfile_mode)
  /\ hd_error (progress_lines (after r)) = Some "Error: No active Proton-GE version".
Proof.
  intros Htmp Hproton r.
  destruct (create_spore_registry_cases C spore_path prefix_path w) as (_ & _ & H).
  fold r in H. rewrite Htmp, Hproton in H. destruct H as (Hr & Hf & Hc).
  split; [exact Hr|]. split; [exact Hc|]. split; [rewrite Hf; apply lookup_insert_eq|].
  subst r. unfold create_spore_registry, write_temporary_file. mstep.
  rewrite Htmp. mstep. rewrite Hproton. now mstep.
Qed.

Lemma create_spore_registry_without_runtime_witness :
  let r := create_spore_registry (Cases.with_runtime (fun _ => Ret None)) "/games/Spore"
             Scenario.prefix_path Scenario.empty_world in
  result r = Ret false
  /\ files (after r) !! "/tmp/tmp8x2k.reg"
     = Some (File (reg_content "/games/Spore") tempfile_mode).
Proof.
  destruct (create_spore_registry_without_runtime (Cases.with_runtime (fun _ => Ret None))
              "/games/Spore" Scenario.prefix_path Scenario.empty_world "/tmp/tmp8x2k.reg")
    as (Hr & _ & Hf & _); try reflexivity.
  split; assumption.
Defined.

(** ** Download: outcomes *)

Section DownloadFacts.

Lemma find_asset_url_first (l : list Asset) (url : string) (a : Asset) :
  find_asset_url l = Some (url, a) ->
  exists pre post,
    l = (pre ++ a :: post)%list
    /\ asset_name a = installer_asset
    /\ url = browser_download_url a
    /\ forall a', In a' pre -> asset_name a' <> installer_asset.
Proof.
  induction l as [|x l IH]; [discriminate|]. cbn [find_asset_url].
  destruct (String.eqb (asset_name x) installer_asset) eqn:E.
  - intros [= <- <-]. exists [], l. apply String.eqb_eq in E. repeat split; [assumption|].
    intros a' [].
  - intros H. destruct (IH H) as (pre & post & -> & Hn & Hu & Hpre).
    exists (x :: pre), post. repeat split; try assumption.
    intros a' [<-|Hin]; [now apply String.eqb_neq in E | now apply Hpre].
Qed.

End DownloadFacts.

(** X6. [download_modapi_installer] never raises.  When it returns a path,
    the latest release held an asset named [ModAPI.InterimSetup.exe], the
    one download it made asked for the URL of the first such asset, under
    that file name and with the cache on, and the path is the non-empty
    file name the downloader gave back. *)
Theorem download_modapi_installer_some (C : Collaborators) (w : World) :
  let r := download_modapi_installer C w in
  (exists answer, result r = Ret answer)
  /\ forall p, result r = Ret (Some p) ->
       exists release pre a post fx file,
         get_latest_release C (served KGetLatestRelease (calls w)) = Ret (Some release)
         /\ assets release = (pre ++ a :: post)%list
         /\ asset_name a = installer_asset
         /\ (forall a', In a' pre -> asset_name a' <> installer_asset)
         /\ download_file C (served KDownloadFile (calls w)) (browser_download_url a)
              installer_asset true = (fx, Ret (Some file))
         /\ file <> "" /\ p = Path_of file
         /\ calls (after r) =
              CallDownloadFile (browser_download_url a) installer_asset true
                :: CallGetLatestRelease :: calls w.
Proof.
  intros r. destruct (download_modapi_installer_cases C w) as (_ & _ & H). fold r in H.
  destruct (get_latest_release C _) as [[release|]|e].
  2, 3: destruct H as (-> & _); (split; [eauto|]); discriminate.
  unfold chosen_url in H.
  destruct (find_asset_url (assets release)) as [[url a]|] eqn:Hfind.
  2: { destruct H as (-> & _). split; [eauto|]. discriminate. }
  destruct (String.eqb url "") eqn:Hurl.
  { destruct H as (-> & _). split; [eauto|]. discriminate. }
  destruct (download_file C _ _ _ _) as [fx answer] eqn:Hdl.
  destruct H as (-> & _ & Hc). split; [eauto|].
  intros p Hp.
  destruct (find_asset_url_first _ _ _ Hfind) as (pre & post & Hassets & Hname & -> & Hpre).
  destruct answer as [[file|]|e]; try discriminate.
  destruct (String.eqb file "") eqn:Hfile; [discriminate|].
  injection Hp as <-. apply String.eqb_neq in Hfile.
  exists release, pre, a, post, fx, file. repeat split; assumption.
Qed.

(** X7. With no release, or none of whose assets is named
    [ModAPI.InterimSetup.exe], [download_modapi_installer] returns nothing
    and never calls the downloader. *)
Theorem download_modapi_installer_no_asset (C : Collaborators) (w : World) :
  match get_latest_release C (served KGetLatestRelease (calls w)) with
  | Ret (Some release) =>
      forall a, In a (assets release) -> asset_name a <> installer_asset
  | _ => True
  end ->
  let r := download_modapi_installer C w in
  result r = Ret None
  /\ calls (after r) = CallGetLatestRelease :: calls w
  /\ files (after r) = files w.
Proof.
  intros Hno r. destruct (download_modapi_installer_cases C w) as (_ & _ & H). fold r in H.
  destruct (get_latest_release C _) as [[release|]|e]; try (now repeat split; apply H).
  unfold chosen_url in H.
  destruct (find_asset_url (assets release)) as [[url a]|] eqn:Hfind;
    [|now repeat split; apply H].
  destruct (find_asset_url_first _ _ _ Hfind) as (pre & post & Hassets & Hname & _).
  exfalso. apply (Hno a); [|assumption].
  rewrite Hassets. apply in_or_app. right. now left.
Qed.

Lemma download_modapi_installer_no_asset_witness :
  let r := download_modapi_installer (Cases.with_release (Ret (Some Cases.sources_only)))
             Scenario.empty_world in
  result r = Ret None /\ calls (after r) = [CallGetLatestRelease].
Proof.
  destruct (download_modapi_installer_no_asset
              (Cases.with_release (Ret (Some Cases.sources_only))) Scenario.empty_world)
    as (Hr & Hc & _).
  - intros a [<-|[<-|[]]]; discriminate.
  - split; assumption.
Defined.

(** ** Installer launch: outcomes *)

(** X8. [launch_installer_with_instructions] never raises and changes no
    file.  It spawns one process, [wine64] of the active runtime on the
    installer, and only when a runtime is active; it returns [False] when
    there is none and when the launch raises, except that a raised
    [TimeoutExpired], from the spawn or from the runtime manager, is
    reported as success. *)
Theorem launch_installer_outcomes (C : Collaborators) (installer_exe prefix_path : Path)
    (spore_path : string) (w : World) :
  let r := launch_installer_with_instructions C installer_exe prefix_path spore_path w in
  files (after r) = files w
  /\ (result r = Ret true \/ result r = Ret false)
  /\ match get_active_proton_path C (served KGetActiveProtonPath (calls w)) with
     | Ret (Some proton_path) =>
         let argv := [path_str (parent proton_path // "files" // "bin" // "wine64");
                      path_str installer_exe] in
         let env := guest_env (environ w) prefix_path in
         calls (after r) = CallPopen argv env :: CallGetActiveProtonPath :: calls w
         /\ (result r = Ret false <->
             exists e, subprocess_Popen C (served KPopen (calls w)) argv env = Raise e
                       /\ is_timeout e = false)
     | Ret None =>
         calls (after r) = CallGetActiveProtonPath :: calls w /\ result r = Ret false
     | Raise e =>
         calls (after r) = CallGetActiveProtonPath :: calls w
         /\ result r = Ret (is_timeout e)
     end.
Proof.
  intros r.
  destruct (launch_installer_cases C installer_exe prefix_path spore_path w)
    as (_ & _ & Hf & H).
  fold r in Hf, H. split; [exact Hf|].
  destruct (get_active_proton_path C _) as [[proton_path|]|e].
  - cbn zeta in H. destruct H as (Hr & Hc). fold (wine64_of proton_path).
    destruct (subprocess_Popen C _ _ _) as [[]|e] eqn:Hp.
    + split; [now left|]. split; [exact Hc|]. rewrite Hr. split; [discriminate|].
      intros (e & He & _). congruence.
    + fold (is_timeout e) in Hr. split; [rewrite Hr; destruct (is_timeout e); eauto|].
      split; [exact Hc|]. rewrite Hr. split.
      * intros [= Ht]. now exists e.
      * intros (e' & He' & Ht). rewrite Hp in He'. injection He' as <-.
        now rewrite Ht.
  - destruct H as (Hr & Hc). split; [now right|]. now split.
  - destruct H as (Hr & Hc). fold (is_timeout e) in Hr.
    split; [rewrite Hr; destruct (is_timeout e); eauto|]. now split.
Qed.

(** ** Dependency step: failures *)

(** X9. With the marker absent and no active runtime, the dependency step
    returns [False] at once: the delegate is not called, the marker is not
    touched and no file changes. *)
Theorem ensure_dependencies_without_runtime (C : Collaborators) (prefix_path : Path)
    (w : World) :
  files w !! marker_key prefix_path = None ->
  get_active_proton_path C (served KGetActiveProtonPath (calls w)) = Ret None ->
  let r := ensure_dependencies C prefix_path w in
  result r = Ret false
  /\ calls (after r)
     = CallGetActiveProtonPath :: FsExists (marker_key prefix_path) :: calls w
  /\ files (after r) = files w.
Proof.
  intros Hm Hp r. destruct (ensure_dependencies_cases C prefix_path w Hm) as (_ & _ & H).
  fold r in H. rewrite Hp in H. destruct H as (Hr & Hf & Hc). now repeat split.
Qed.

Lemma ensure_dependencies_without_runtime_witness :
  let r := ensure_dependencies (Cases.with_runtime (fun _ => Ret None))
             Scenario.prefix_path Scenario.empty_world in
  result r = Ret false /\ files (after r) = ∅.
Proof.
  destruct (ensure_dependencies_without_runtime (Cases.with_runtime (fun _ => Ret None))
              Scenario.prefix_path Scenario.empty_world) as (Hr & _ & Hf);
    try reflexivity.
  split; assumption.
Defined.

(** X10. A delegate that reports failure leaves no marker, so the next run
    of the step calls the delegate again: after two runs the delegate has
    been invoked twice. *)
Theorem ensure_dependencies_retries (C : Collaborators) (prefix_path : Path) (w : World)
    (proton_path proton_path' : Path) (fx : Effect) (res : DepResult) :
  let marker := marker_key prefix_path in
  let args := dependency_args proton_path prefix_path
                (steam_client_path_of (get_steam_root C (served KGetSteamRoot (calls w)))) in
  files w !! marker = None ->
  get_active_proton_path C (served KGetActiveProtonPath (calls w)) = Ret (Some proton_path) ->
  SteamUtils C (served KSteamUtils (calls w)) = Ret tt ->
  _install_dependencies_unified C (served KInstallDependencies (calls w)) args
    = (fx, Ret res) ->
  success res = false ->
  fx (files w) !! marker = None ->
  get_active_proton_path C (S (served KGetActiveProtonPath (calls w)))
    = Ret (Some proton_path') ->
  SteamUtils C (S (served KSteamUtils (calls w))) = Ret tt ->
  let r1 := ensure_dependencies C prefix_path w in
  let r2 := ensure_dependencies C prefix_path (after r1) in
  result r1 = Ret false
  /\ files (after r1) !! marker = None
  /\ served KInstallDependencies (calls (after r2))
     = 2 + served KInstallDependencies (calls w).
Proof.
  intros marker args Hm Hp Hs Hd Hfail Hfx Hp' Hs' r1 r2.
  destruct (ensure_dependencies_cases C prefix_path w Hm) as (_ & _ & H1).
  fold r1 in H1. rewrite Hp, Hs in H1. cbn zeta in H1. fold args in H1.
  rewrite Hd, Hfail in H1. destruct H1 as (Hr1 & Hc1 & Hf1 & _).
  assert (Hm1 : files (after r1) !! marker_key prefix_path = None)
    by (rewrite Hf1; exact Hfx).
  split; [exact Hr1|]. split; [exact Hm1|].
  destruct (ensure_dependencies_cases C prefix_path (after r1) Hm1) as (_ & _ & H2).
  fold r2 in H2. rewrite Hc1 in H2.
  cbn [served kind_eqb kind_code kind_of Nat.eqb Nat.add] in H2.
  rewrite Hp', Hs' in H2. cbn zeta in H2.
  match type of H2 with
  | context [_install_dependencies_unified C ?n ?a] =>
      destruct (_install_dependencies_unified C n a) as [fx2 [res2|e2]]
  end.
  - destruct (success res2); destruct H2 as (_ & Hc2 & _); rewrite Hc2; reflexivity.
  - destruct H2 as (_ & Hc2 & _). rewrite Hc2. reflexivity.
Qed.

Lemma ensure_dependencies_retries_witness :
  let C := Cases.with_installer (fun _ _ => (id, Ret (mkDepResult false "winetricks failed"))) in
  let r1 := ensure_dependencies C Scenario.prefix_path Scenario.empty_world in
  let r2 := ensure_dependencies C Scenario.prefix_path (after r1) in
  result r1 = Ret false /\ served KInstallDependencies (calls (after r2)) = 2.
Proof.
  intros C.
  destruct (ensure_dependencies_retries C Scenario.prefix_path Scenario.empty_world
              Cases.proton Cases.proton id (mkDepResult false "winetricks failed"))
    as (Hr & _ & Hn); try reflexivity.
  split; assumption.
Defined.

Section NeverRaise.
Context (C : Collaborators).

Lemma create_spore_registry_pcts (spore_path : string) (prefix_path : Path) (w : World) :
  progress_pcts (after (create_spore_registry C spore_path prefix_path w)) = progress_pcts w.
Proof. now destruct (create_spore_registry_cases C spore_path prefix_path w) as (H & _). Qed.

Lemma create_spore_registry_true_or_false (spore_path : string) (prefix_path : Path)
    (w : World) :
  result (create_spore_registry C spore_path prefix_path w) = Ret true
  \/ result (create_spore_registry C spore_path prefix_path w) = Ret false.
Proof.
  destruct (create_spore_registry_cases C spore_path prefix_path w) as (_ & _ & H).
  destruct (NamedTemporaryFile C _ _); [|right; apply H].
  destruct (get_active_proton_path C _) as [[?|]|]; try (right; apply H).
  cbn zeta in H. destruct (subprocess_run C _ _ _ _) as [fx [proc|e]];
    destruct H as (-> & _); [destruct (Nat.eqb _ _)|]; eauto.
Qed.

Lemma download_modapi_installer_never_raises (w : World) :
  exists answer, result (download_modapi_installer C w) = Ret answer.
Proof.
  destruct (download_modapi_installer_cases C w) as (_ & _ & H).
  destruct (get_latest_release C _) as [[release|]|e]; try (eexists; apply H).
  destruct (chosen_url release); [|eexists; apply H].
  destruct (download_file C _ _ _ _). eexists. apply H.
Qed.

Lemma launch_installer_true_or_false (installer_exe prefix_path : Path)
    (spore_path : string) (w : World) :
  result (launch_installer_with_instructions C installer_exe prefix_path spore_path w)
    = Ret true
  \/ result (launch_installer_with_instructions C installer_exe prefix_path spore_path w)
    = Ret false.
Proof.
  destruct (launch_installer_cases C installer_exe prefix_path spore_path w)
    as (_ & _ & _ & H).
  destruct (get_active_proton_path C _) as [[?|]|e]; cbn zeta in H;
    destruct H as (-> & _); eauto.
  - destruct (subprocess_Popen C _ _ _) as [|e]; [eauto|]. destruct (exn_class e); eauto.
  - destruct (exn_class e); eauto.
Qed.

End NeverRaise.

(** ** Install pipeline: progress and failures *)

Section PipelineProgress.
Context (C : Collaborators).

Lemma find_spore_loop_lines (games : list Game) (w : World) (g : Game) :
  List.find is_spore games = Some g ->
  progress_lines (after (find_spore_loop games w))
  = ("Found Spore: " +:+ name g +:+ " at " +:+ path g) :: progress_lines w.
Proof.
  induction games as [|x games IH]; [discriminate|]. cbn [List.find find_spore_loop].
  destruct (is_spore x); [|exact IH]. intros [= <-]. now mstep.
Qed.

(** What [find_spore_game] logs when the locator lists a Spore title. *)
Lemma find_spore_game_found_lines (w : World) (games : list Game) (g : Game) :
  find_all_games C (served KFindAllGames (calls w)) = Ret games ->
  List.find is_spore games = Some g ->
  progress_lines (after (find_spore_game C w))
  = ("Found Spore: " +:+ name g +:+ " at " +:+ path g)
      :: "Searching for Spore installation..." :: progress_lines w.
Proof.
  intros Hgames Hfind. unfold find_spore_game. mstep. rewrite Hgames.
  match goal with |- context [find_spore_loop games ?w0] =>
    assert (Hl := find_spore_loop_lines games w0 g Hfind);
    destruct (find_spore_loop_result games w0) as (Hr & _);
    destruct (find_spore_loop games w0) as [w1 [o|e]] end;
    unfold after, result in *; cbn [fst snd] in *; [|discriminate].
  rewrite Hl. now autorewrite with world.
Qed.

Lemma locate_and_prepare_pcts (custom_name : option string) (w : World) :
  let r := locate_and_prepare C custom_name w in
  (progress_pcts (after r) = 5 :: 0 :: progress_pcts w
   /\ forall x, result r <> Ret (Some x))
  \/ progress_pcts (after r) = 15 :: 10 :: 5 :: 0 :: progress_pcts w.
Proof.
  intros r. subst r. unfold locate_and_prepare. mstep.
  match goal with |- context [find_spore_game C ?w0] =>
    destruct (find_spore_game_result C w0) as (_ & _ & _ & Hp);
    destruct (find_spore_game C w0) as [w1 [[g|]|e]] end;
    unfold after in Hp; cbn [fst] in Hp; autorewrite with world in Hp; mstep.
  2, 3: left; split; [exact Hp | discriminate].
  destruct (get_prefixes_dir C _) as [pd|e]; mstep.
  2: { left. split; [exact Hp | discriminate]. }
  right.
  destruct (bool_decide _); mstep;
    match goal with |- context [ensure_dependencies C ?p ?w0] =>
      assert (He := ensure_dependencies_pcts C p w0);
      destruct (ensure_dependencies C p w0) as [w2 [[]|e]] end;
    unfold after in He; cbn [fst] in He; autorewrite with world in He; mstep;
    now rewrite He, Hp.
Qed.

Lemma install_guest_pcts (spore_path : string) (prefix_path : Path) (w : World) :
  let r := install_guest C spore_path prefix_path w in
  (result r = Ret true /\ progress_pcts (after r) = 100 :: 60 :: 50 :: 40 :: progress_pcts w)
  \/ (result r = Ret false
      /\ (progress_pcts (after r) = 50 :: 40 :: progress_pcts w
          \/ progress_pcts (after r) = 60 :: 50 :: 40 :: progress_pcts w)).
Proof.
  intros r. subst r. unfold install_guest. mstep.
  match goal with |- context [create_spore_registry C ?s ?p ?w0] =>
    assert (Hreg := create_spore_registry_pcts C s p w0);
    destruct (create_spore_registry_true_or_false C s p w0) as [Hr|Hr];
    destruct (create_spore_registry C s p w0) as [w1 o1] end;
    unfold after, result in Hreg, Hr; cbn [fst snd] in Hreg, Hr; subst o1;
    autorewrite with world in Hreg; mstep.
  all: match goal with |- context [download_modapi_installer C ?w0] =>
    destruct (download_modapi_installer_cases C w0) as (Hdl & _);
    destruct (download_modapi_installer_never_raises C w0) as [a Ha];
    destruct (download_modapi_installer C w0) as [w2 o2] end;
    unfold after, result in Hdl, Ha; cbn [fst snd] in Hdl, Ha; subst o2;
    autorewrite with world in Hdl; destruct a as [exe|]; mstep.
  2, 4: right; split; [reflexivity|]; left; now rewrite Hdl, Hreg.
  all: match goal with |- context [launch_installer_with_instructions C ?e ?p ?s ?w0] =>
    destruct (launch_installer_cases C e p s w0) as (Hl & _);
    destruct (launch_installer_true_or_false C e p s w0) as [Hb|Hb];
    destruct (launch_installer_with_instructions C e p s w0) as [w3 o3] end;
    unfold after, result in Hl, Hb; cbn [fst snd] in Hl, Hb; subst o3;
    autorewrite with world in Hl; mstep.
  1, 3: left; split; [reflexivity|]; now rewrite Hl, Hdl, Hreg.
  all: right; split; [reflexivity|]; right; now rewrite Hl, Hdl, Hreg.
Qed.

End PipelineProgress.

(** X11. [install] never raises, and the percentages it reports are always
    an initial stretch of 0, 5, 10, 15, 40, 50, 60, 100, at least the
    first two; it reports 100 exactly when it returns [True]. *)
Theorem install_progress (C : Collaborators) (custom_name : option string)
    (log_callback : bool) (w : World) :
  let r := install C custom_name log_callback w in
  (result r = Ret true \/ result r = Ret false)
  /\ exists k,
       2 <= k <= 8
       /\ progress_pcts (after r) = (rev (firstn k progress_plan) ++ progress_pcts w)%list
       /\ (result r = Ret true <-> k = 8).
Proof.
  intros r. subst r. unfold install. mstep.
  destruct (locate_and_prepare_pcts C custom_name w) as [[Hp Hnone]|Hp];
    destruct (locate_and_prepare C custom_name w) as [w0 [[[spore_path prefix_path]|]|e]];
    unfold after, result in *; cbn [fst snd] in *; mstep.
  1: now destruct (Hnone (spore_path, prefix_path)).
  1, 2, 4, 5: destruct log_callback; mstep; (split; [now right|]);
    first [exists 2; rewrite Hp; repeat split; (lia || discriminate)
          |exists 4; rewrite Hp; repeat split; (lia || discriminate)].
  destruct (install_guest_pcts C spore_path prefix_path w0) as [[Hr Hg]|[Hr [Hg|Hg]]];
    destruct (install_guest C spore_path prefix_path w0) as [w1 o1];
    unfold after, result in *; cbn [fst snd] in *; subst o1; mstep.
  - split; [now left|]. exists 8. rewrite Hg, Hp. repeat split; lia.
  - split; [now right|]. exists 6. rewrite Hg, Hp. repeat split; (lia || discriminate).
  - split; [now right|]. exists 7. rewrite Hg, Hp. repeat split; (lia || discriminate).
Qed.

(** X12. When resolving the sandbox root raises, [install] catches the
    exception: it returns [False], sends the message to the logger, and to
    the log callback only if one was given; nothing is created on disk and
    nothing beyond the locator and the resolver is called. *)
Theorem install_catches_resolver_failure (C : Collaborators) (custom_name : option string)
    (log_callback : bool) (w : World) (games : list Game) (g : Game) (e : Exn) :
  find_all_games C (served KFindAllGames (calls w)) = Ret games ->
  List.find is_spore games = Some g ->
  get_prefixes_dir C (served KGetPrefixesDir (calls w)) = Raise e ->
  let r := install C custom_name log_callback w in
  result r = Ret false
  /\ hd_error (logger_errors (after r))
     = Some ("Failed to install Spore Mod Loader: " +:+ exn_str e)
  /\ progress_lines (after r)
     = ((if log_callback then ["Error: " +:+ exn_str e] else [])
        ++ ("Found Spore: " +:+ name g +:+ " at " +:+ path g)
        :: "Searching for Spore installation..."
        :: "=== Starting Spore Mod Loader Installation ===" :: progress_lines w)%list
  /\ files (after r) = files w
  /\ calls (after r) = CallGetPrefixesDir :: CallFindAllGames :: calls w.
Proof.
  intros Hgames Hfind Hdir r. subst r. unfold install, locate_and_prepare. mstep.
  match goal with |- context [find_spore_game C ?w0] =>
    destruct (find_spore_game_result C w0) as (Hr & Hf & Hc & _);
    assert (Hl := find_spore_game_found_lines C w0 games g);
    destruct (find_spore_game C w0) as [w1 o1] end.
  unfold after, result in *. cbn [fst snd] in *. autorewrite with world in *.
  rewrite Hgames, Hfind in Hr. subst o1. specialize (Hl Hgames Hfind).
  mstep. rewrite Hc. mstep. rewrite Hdir. mstep.
  destruct log_callback; mstep; rewrite Hl, Hf, Hc; now repeat split.
Qed.

Lemma install_catches_resolver_failure_witness :
  let C := Cases.with_prefixes_dir (Raise (mkExn OtherError "no home directory")) in
  let r := install C None true Scenario.empty_world in
  result r = Ret false
  /\ logger_errors (after r) = ["Failed to install Spore Mod Loader: no home directory"]
  /\ files (after r) = ∅.
Proof.
  intros C.
  destruct (install_catches_resolver_failure C None true Scenario.empty_world
              Scenario.games (mkGame "SPORE: Galactic Adventures" "/games/Spore" "steam")
              (mkExn OtherError "no home directory"))
    as (Hr & _ & _ & Hf & _); try reflexivity.
  repeat split; try assumption; reflexivity.
Defined.

(** ** Verifying the installation *)

Section Verify.

Lemma verify_loop_spec (todo : list string) (install_dir : Path) :
  forall (all_found : bool) (w : World),
  let r := verify_loop todo install_dir all_found w in
  result r = Ret (all_found && forallb (file_present (files w) install_dir) todo)
  /\ files (after r) = files w
  /\ calls (after r)
     = (rev (List.map (fun f => FsExists (path_str (install_dir // f))) todo) ++ calls w)%list
  /\ progress_lines (after r)
     = (rev (List.map (verify_line (files w) install_dir) todo) ++ progress_lines w)%list.
Proof.
  induction todo as [|f rest IH]; intros all_found w r; subst r.
  - cbn [verify_loop forallb List.map rev app]. mstep. now rewrite andb_true_r.
  - cbn [verify_loop forallb List.map rev]. mstep.
    unfold verify_line at 2.
    change (bool_decide (is_Some (files w !! path_str (install_dir // f))))
      with (file_present (files w) install_dir f).
    destruct (file_present (files w) install_dir f); mstep;
      match goal with |- context [verify_loop rest install_dir ?b ?w0] =>
        destruct (IH b w0) as (Hr & Hf & Hc & Hl) end;
      unfold result, after in *; autorewrite with world in *; rewrite Hr, Hf, Hc, Hl;
      rewrite <- !app_assoc; cbn [app andb];
      repeat split; try reflexivity.
    now rewrite andb_false_r.
Qed.

(** What verifying leaves behind. *)
Lemma verify_installation_cases (install_dir : Path) (w : World) :
  let r := verify_installation install_dir w in
  (result r = Ret true <->
   forall f, In f required_files -> file_present (files w) install_dir f = true)
  /\ files (after r) = files w
  /\ served KGetActiveProtonPath (calls (after r))
     = served KGetActiveProtonPath (calls w).
Proof.
  intros r. subst r. unfold verify_installation. mstep.
  destruct (verify_loop_spec required_files install_dir true
              (log_line "Verifying installation..." w)) as (Hr & Hf & Hc & _).
  unfold result, after in *. autorewrite with world in *.
  rewrite Hr, Hf, Hc. cbn [andb]. split; [|split; [reflexivity|]].
  - pose proof (forallb_forall (file_present (files w) install_dir) required_files) as Hall.
    destruct (forallb (file_present (files w) install_dir) required_files).
    + split; [intros _; now apply Hall | reflexivity].
    + split; [discriminate|]. intros H. apply Hall in H. discriminate.
  - reflexivity.
Qed.

End Verify.

(** X13. [verify_installation] returns [True] exactly when all three
    required files exist under the install root.  It probes all three, in
    order, even after one is found missing, logs one line for each and
    changes no file. *)
Theorem verify_installation_all_found (install_dir : Path) (w : World) :
  let r := verify_installation install_dir w in
  (result r = Ret true <->
   forall f, In f required_files -> file_present (files w) install_dir f = true)
  /\ (result r = Ret true \/ result r = Ret false)
  /\ files (after r) = files w
  /\ calls (after r)
     = FsExists (path_str (install_dir // "Spore ModAPI Easy Uninstaller.exe"))
         :: FsExists (path_str (install_dir // "Spore ModAPI Easy Installer.exe"))
         :: FsExists (path_str (install_dir // "Spore ModAPI Launcher.exe")) :: calls w
  /\ progress_lines (after r)
     = (rev (List.map (verify_line (files w) install_dir) required_files)
        ++ "Verifying installation..." :: progress_lines w)%list.
Proof.
  intros r. subst r. unfold verify_installation. mstep.
  destruct (verify_loop_spec required_files install_dir true
              (log_line "Verifying installation..." w)) as (Hr & Hf & Hc & Hl).
  unfold result, after in *. autorewrite with world in *.
  rewrite Hr, Hf, Hc, Hl. cbn [andb].
  pose proof (forallb_forall (file_present (files w) install_dir) required_files) as Hall.
  destruct (forallb (file_present (files w) install_dir) required_files).
  - repeat split; eauto. intros _. now apply Hall.
  - repeat split; eauto; try discriminate.
    intros H. apply Hall in H. discriminate.
Qed.

(** ** Verifying, finding and generating together *)





(** ** The guest path of an executable *)

Section GuestPath.
Import Str StrFacts.

Lemma replace_go_skip (old new x r : string) :
  replace_go old new (String.length x) (x +:+ r) = replace_go old new 0 r.
Proof. induction x as [|c x IH]; [reflexivity | exact IH]. Qed.

(** A match at the head is replaced and the scan goes on after it. *)
Lemma replace_head (old new r : string) :
  old <> "" -> replace old new (old +:+ r) = new +:+ replace old new r.
Proof.
  destruct old as [|c o]; [congruence|]. intros _. unfold replace.
  change (String c o +:+ r) with (String c (o +:+ r)). cbn [replace_go].
  change (String c (o +:+ r)) with (String c o +:+ r). rewrite prefix_append.
  cbn [String.length Nat.sub]. now rewrite Nat.sub_0_r, replace_go_skip.
Qed.

(** Where the pattern does not occur nothing changes. *)
Lemma replace_absent (old new s : string) :
  old <> "" -> contains old s = false -> replace old new s = s.
Proof.
  destruct old as [|c o]; [congruence|]. intros _. unfold replace.
  induction s as [|x s IH]; [reflexivity|]. cbn [contains]. intros H.
  apply orb_false_iff in H as [Hp Hs]. cbn [replace_go]. rewrite Hp. now rewrite IH.
Qed.

Lemma contains_needs_char (c : ascii) (old s : string) :
  has_char c old = true -> has_char c s = false -> contains old s = false.
Proof.
  intros Ho Hs. destruct (contains old s) eqn:E; [|reflexivity].
  apply contains_iff in E as (a & b & ->).
  rewrite !has_char_app, Ho in Hs. now rewrite orb_true_r in Hs.
Qed.

Lemma replace_char_absent (c : ascii) (new s : string) :
  has_char c s = false -> replace (chr c) new s = s.
Proof.
  induction s as [|x s IH]; [reflexivity|]. cbn [has_char]. intros H.
  apply orb_false_iff in H as [Hx Hs]. rewrite replace_char_cons.
  destruct (Ascii.eqb c x); [discriminate|]. now rewrite IH.
Qed.

Lemma replace_char_gone (c : ascii) (new s : string) :
  has_char c new = false -> has_char c (replace (chr c) new s) = false.
Proof.
  intros Hn. induction s as [|x s IH]; [reflexivity|]. rewrite replace_char_cons.
  destruct (Ascii.eqb c x) eqn:E.
  - now rewrite has_char_app, Hn.
  - cbn [has_char]. now rewrite E.
Qed.

Lemma replace_char_app (c : ascii) (new a b : string) :
  replace (chr c) new (a +:+ b) = replace (chr c) new a +:+ replace (chr c) new b.
Proof.
  induction a as [|x a IH]; [reflexivity|].
  change (String x a +:+ b) with (String x (a +:+ b)). rewrite !replace_char_cons, IH.
  destruct (Ascii.eqb c x); [now rewrite append_assoc | reflexivity].
Qed.

Lemma dir_prefix_truediv (p : Path) (name : string) :
  has_char slash name = false -> is_component name = true ->
  dir_prefix (p // name) = path_str (p // name) +:+ "/".
Proof.
  intros Hs Hc. unfold truediv. rewrite (Path_of_component name Hs Hc).
  cbn [anchor parts String.eqb]. unfold dir_prefix, path_str. cbn [anchor parts].
  destruct (parts p ++ [name])%list eqn:E; [now destruct (parts p)|].
  now rewrite append_assoc.
Qed.

(** One more component: a slash and the name. *)
Lemma path_str_below (p : Path) (a b : string) :
  has_char slash a = false -> is_component a = true ->
  has_char slash b = false -> is_component b = true ->
  path_str (p // a // b) = path_str (p // a) +:+ "/" +:+ b.
Proof.
  intros Ha Hca Hb Hcb. rewrite (path_str_truediv (p // a) b Hb Hcb).
  now rewrite dir_prefix_truediv, append_assoc.
Qed.

Lemma drive_c_has_underscore (prefix_path : Path) :
  has_char "_" (path_str (prefix_path // "drive_c")) = true
  /\ path_str (prefix_path // "drive_c") <> "".
Proof.
  rewrite path_str_truediv by reflexivity. split.
  - rewrite has_char_app. apply orb_true_r.
  - destruct (dir_prefix prefix_path); discriminate.
Qed.

(** The guest path of a file two directories below [drive_c]. *)
Lemma wine_exe_path_below (prefix_path : Path) (a b exe : string) :
  has_char slash a = false -> is_component a = true -> has_char "_" a = false ->
  has_char slash b = false -> is_component b = true -> has_char "_" b = false ->
  has_char slash exe = false -> is_component exe = true -> has_char "_" exe = false ->
  wine_exe_path_of (prefix_path // "drive_c" // a // b // exe) prefix_path
  = "C:\" +:+ a +:+ "\" +:+ b +:+ "\" +:+ exe.
Proof.
  intros Ha Hca Hua Hb Hcb Hub He Hce Hue. unfold wine_exe_path_of.
  destruct (drive_c_has_underscore prefix_path) as [Hu Hne].
  rewrite (path_str_below (prefix_path // "drive_c" // a) b exe) by assumption.
  rewrite (path_str_below (prefix_path // "drive_c") a b) by assumption.
  assert (Hroot : path_str (prefix_path // "drive_c" // a)
                  = path_str (prefix_path // "drive_c") +:+ "/" +:+ a).
  { rewrite (path_str_truediv (prefix_path // "drive_c") a Ha Hca).
    now rewrite dir_prefix_truediv, append_assoc by reflexivity. }
  rewrite Hroot, !append_assoc.
  rewrite replace_head by assumption.
  assert (Hrest : contains (path_str (prefix_path // "drive_c"))
                     ("/" +:+ a +:+ "/" +:+ b +:+ "/" +:+ exe) = false).
  { apply (contains_needs_char "_" _ _ Hu).
    rewrite !has_char_app, Hua, Hub, Hue. reflexivity. }
  rewrite (replace_absent (path_str (prefix_path // "drive_c")) "C:" _ Hne Hrest).
  change (replace "/" "\") with (replace (chr slash) "\").
  rewrite !replace_char_app.
  rewrite (replace_char_absent slash "\" a Ha), (replace_char_absent slash "\" b Hb),
    (replace_char_absent slash "\" exe He).
  reflexivity.
Qed.

End GuestPath.

(** X16. For an executable in any of the three candidate directories of a
    sandbox, the guest path written into its script is the [C:] path of
    that directory with backslashes, whatever the sandbox root is. *)
Theorem wine_exe_path_of_candidates (prefix_path : Path) (exe : string) :
  Str.has_char Str.slash exe = false -> is_component exe = true ->
  Str.has_char "_" exe = false ->
  wine_exe_path_of (default_path prefix_path // exe) prefix_path
    = "C:\ProgramData\SPORE ModAPI Launcher Kit\" +:+ exe
  /\ wine_exe_path_of (alt_path1 prefix_path // exe) prefix_path
    = "C:\Program Files (x86)\Spore ModAPI Launcher Kit\" +:+ exe
  /\ wine_exe_path_of (alt_path2 prefix_path // exe) prefix_path
    = "C:\Program Files\Spore ModAPI Launcher Kit\" +:+ exe.
Proof.
  intros Hs Hc Hu. unfold default_path, alt_path1, alt_path2.
  repeat split; rewrite wine_exe_path_below by (assumption || reflexivity); reflexivity.
Qed.

Lemma wine_exe_path_of_candidates_witness :
  wine_exe_path_of (default_path Scenario.prefix_path // "Spore ModAPI Launcher.exe")
    Scenario.prefix_path
  = "C:\ProgramData\SPORE ModAPI Launcher Kit\Spore ModAPI Launcher.exe".
Proof.
  destruct (wine_exe_path_of_candidates Scenario.prefix_path "Spore ModAPI Launcher.exe")
    as (H & _); [reflexivity | reflexivity | reflexivity | exact H].
Defined.

(** X17. The guest path never holds a forward slash; and for an
    executable whose host path does not contain the sandbox's [drive_c]
    directory it is no [C:] path at all, only the host path with its
    slashes turned. *)
Theorem wine_exe_path_of_outside (exe_path prefix_path : Path) :
  Str.has_char Str.slash (wine_exe_path_of exe_path prefix_path) = false
  /\ (Str.contains (path_str (prefix_path // "drive_c")) (path_str exe_path) = false ->
      wine_exe_path_of exe_path prefix_path = Str.replace "/" "\" (path_str exe_path)).
Proof.
  unfold wine_exe_path_of. split.
  - now apply (replace_char_gone Str.slash "\").
  - intros H.
    now rewrite (replace_absent (path_str (prefix_path // "drive_c")) "C:" _
                   (proj2 (drive_c_has_underscore prefix_path)) H).
Qed.

Lemma wine_exe_path_of_outside_witness :
  wine_exe_path_of (Path_of "/opt/modapi/Spore ModAPI Launcher.exe") Scenario.prefix_path
  = "\opt\modapi\Spore ModAPI Launcher.exe".
Proof.
  destruct (wine_exe_path_of_outside (Path_of "/opt/modapi/Spore ModAPI Launcher.exe")
              Scenario.prefix_path) as (_ & H).
  rewrite H; reflexivity.
Defined.

(** ** Edges of the game search and of script generation *)

Section SearchMessages.
Context (C : Collaborators).

(** The line the search loop reports. *)
Lemma find_spore_loop_run (games : list Game) (w : World) :
  find_spore_loop games w
  = (log_line (search_line (List.find is_spore games)) w,
     Ret (List.find is_spore games)).
Proof.
  induction games as [|g games IH]; cbn [find_spore_loop List.find]; [now mstep|].
  destruct (is_spore g); [|exact IH]. mstep. now destruct g.
Qed.

End SearchMessages.

(** X18. [find_spore_game] never raises and always answers its opening
    line with exactly one message.  When the locator returns its list, the
    message is a progress line, the one of the first Spore title or the
    not-found line, and nothing is logged as an error; when the locator
    raises, the result is [None], the message is the logged error with the
    exception's text, and no further progress line is sent. *)
Theorem find_spore_game_messages (C : Collaborators) (w : World) :
  let r := find_spore_game C w in
  files (after r) = files w
  /\ match find_all_games C (served KFindAllGames (calls w)) with
     | Ret games =>
         result r = Ret (List.find is_spore games)
         /\ progress_lines (after r)
            = search_line (List.find is_spore games)
                :: "Searching for Spore installation..." :: progress_lines w
         /\ logger_errors (after r) = logger_errors w
     | Raise e =>
         result r = Ret None
         /\ progress_lines (after r)
            = "Searching for Spore installation..." :: progress_lines w
         /\ logger_errors (after r)
            = ("Failed to find Spore: " +:+ exn_str e) :: logger_errors w
     end.
Proof.
  intros r. subst r. unfold find_spore_game. mstep.
  destruct (find_all_games C _) as [games|e].
  - rewrite find_spore_loop_run. cbn [fst snd]. now autorewrite with world.
  - now mstep.
Qed.

(** X19. With an install root at hand but no active runtime,
    [create_launch_scripts] runs into the attribute error of
    [proton_path.parent]: it catches it, logs it and returns [False], and
    no file is written or changed. *)
Theorem create_launch_scripts_without_runtime (C : Collaborators) (out prefix_path : Path)
    (modapi_install_dir : option Path) (w : World) (dir : Path) :
  located_install (files w) prefix_path modapi_install_dir = Some dir ->
  get_active_proton_path C (served KGetActiveProtonPath (calls w)) = Ret None ->
  let r := create_launch_scripts C out prefix_path modapi_install_dir w in
  result r = Ret false
  /\ files (after r) = files w
  /\ logger_errors (after r)
     = "Failed to create launch scripts: 'NoneType' object has no attribute 'parent'"
         :: logger_errors w
  /\ exists new, calls (after r) = (new ++ calls w)%list /\ written_paths new = [].
Proof.
  intros Hloc Hp r. subst r. unfold create_launch_scripts.
  destruct modapi_install_dir as [d|]; cbn [located_install] in Hloc.
  - mstep. rewrite Hp. mstep. repeat split. now exists [CallGetActiveProtonPath].
  - unfold find_modapi_installation. unfold candidates in Hloc. cbn [List.find] in Hloc.
    unfold has_marker in Hloc. mstep.
    destruct (bool_decide (is_Some (files w !! path_str (default_path prefix_path // _))));
      mstep.
    { rewrite Hp. mstep. repeat split. now eexists [_; _]. }
    destruct (bool_decide (is_Some (files w !! path_str (alt_path1 prefix_path // _))));
      mstep.
    { rewrite Hp. mstep. repeat split. now eexists [_; _; _]. }
    destruct (bool_decide (is_Some (files w !! path_str (alt_path2 prefix_path // _))));
      mstep; [|discriminate].
    rewrite Hp. mstep. repeat split. now eexists [_; _; _; _].
Qed.

Lemma create_launch_scripts_without_runtime_witness :
  let C := Cases.with_runtime (fun _ => Ret None) in
  let r := create_launch_scripts C (Path_of "/home/user/bin") Scenario.prefix_path None
             Cases.all_installed in
  result r = Ret false /\ files (after r) = files Cases.all_installed.
Proof.
  intros C r.
  destruct (create_launch_scripts_without_runtime C (Path_of "/home/user/bin")
              Scenario.prefix_path None Cases.all_installed
              (default_path Scenario.prefix_path)) as (Hr & Hf & _);
    [reflexivity | reflexivity | exact (conj Hr Hf)].
Defined.

(** X20. Left to find the install root in a sandbox where no candidate
    directory holds the launcher, [create_launch_scripts] returns [False]
    after probing the three candidates in order: it reports the failure
    twice, never asks for the runtime, logs no error and touches no
    file. *)
Theorem create_launch_scripts_without_install (C : Collaborators) (out prefix_path : Path)
    (w : World) :
  List.find (has_marker (files w)) (candidates prefix_path) = None ->
  let r := create_launch_scripts C out prefix_path None w in
  result r = Ret false
  /\ files (after r) = files w
  /\ calls (after r) = (rev (List.map probe_call (candidates prefix_path)) ++ calls w)%list
  /\ progress_lines (after r)
     = "ERROR: Could not find ModAPI installation"
         :: "ERROR: Could not find ModAPI installation in Wine prefix"
         :: "Locating ModAPI installation..."
         :: "Creating launch scripts..." :: progress_lines w
  /\ logger_errors (after r) = logger_errors w.
Proof.
  intros Hloc r. subst r. unfold create_launch_scripts, find_modapi_installation.
  unfold candidates in *. cbn [List.find] in Hloc. unfold has_marker in Hloc. mstep.
  destruct (bool_decide (is_Some (files w !! path_str (default_path prefix_path // _))));
    [discriminate|]. mstep.
  destruct (bool_decide (is_Some (files w !! path_str (alt_path1 prefix_path // _))));
    [discriminate|]. mstep.
  destruct (bool_decide (is_Some (files w !! path_str (alt_path2 prefix_path // _))));
    [discriminate|]. mstep.
  repeat split.
Qed.

Lemma create_launch_scripts_without_install_witness :
  let r := create_launch_scripts Cases.base (Path_of "/home/user/bin") Scenario.prefix_path
             None Scenario.empty_world in
  result r = Ret false /\ files (after r) = files Scenario.empty_world.
Proof.
  intros r.
  destruct (create_launch_scripts_without_install Cases.base (Path_of "/home/user/bin")
              Scenario.prefix_path Scenario.empty_world) as (Hr & Hf & _);
    [reflexivity | exact (conj Hr Hf)].
Defined.
